(** * The notebook view of api-notebook (public/scripts/views/notebook.js)

    A shallow embedding of [Notebook], the Backbone view that owns the ordered
    registry of cells of one notebook, routes the events its cell views raise,
    runs the code cells one after the other and triggers the debounced save
    of the registry to the gist.

    Objects are addressed by reference: a cell (its model, its view and the
    DOM element of the view, which the source keeps in one-to-one
    correspondence through [view.model], [model.view] and [view.el]) is a
    [cid], an index into the heap of constructed views; a notebook instance
    is an [inst].  The methods run in a state monad over the environment of
    one call, with a [TypeError] for the dereference of [undefined].

    A string of the program is a [string] that holds the bytes of its UTF-8
    encoding, as the string literals of this file do. *)

From stdpp Require Import base option list sets strings.

Set Warnings "-clear-no-such-hyp,-level-tolerance".

(** ** Data model *)

Abbreviation cid := nat.
Abbreviation inst := nat.

(** [model.get('type')]: the two cell variants. *)
Inductive CellType := code | text.

Global Instance CellType_eq_dec : EqDecision CellType.
Proof. solve_decision. Defined.

(** Where the cursor of an editor stands.  [moveCursorToEnd()] leaves it at
    the end of the content, [moveCursorToEnd(0)] at the start, [setCursor]
    at the position it is given. *)
Inductive Cursor := AtEnd | AtStart | At (offset : nat).

(** A cell view together with its model. *)
Record View := mkView {
  type : CellType;
  value : string;
  _uniqueCellId : option nat;
  cursor : Cursor
}.

(** Every notebook has a unique gist: what the notebook reads of it, and the
    partial saves handed to the external store, oldest first. *)
Record Gist := mkGist {
  gist_isNew : bool;
  gist_isOwner : bool;
  gist_notebook : string;
  gist_saved : list string
}.

(** The completion of a sandbox execution: [(err, result)]. *)
Inductive Outcome := Failure (err : string) | Success (result : string).

Global Instance Outcome_eq_dec : EqDecision Outcome.
Proof. solve_decision. Defined.

(** Calls that leave the notebook for a collaborator, in the order they are
    made. *)
Inductive Effect :=
| Focus (v : cid)
| SandboxExecute (v : cid) (source : string)
| SandboxReturn (v : cid) (o : Outcome)
| Completion
| Navigate (path : string) (trigger : bool).

Global Instance Effect_eq_dec : EqDecision Effect.
Proof. solve_decision. Defined.

Record Notebook := mkNotebook {
  _uniqueId : nat;
  rendering : bool;
  execution : bool;
  user_id : option string;
  gist : Gist;
  collection : list cid;
  childNodes : list cid;
  loading : bool;
  views : list View;
  effects : list Effect
}.

(** The module-level [saveGist]: the context of the last call and the time
    its timer expires, when a timer is pending. *)
Definition Debounced := option (inst * nat).

(** The environment of one call: [this], its identity, the debounced
    [saveGist] of the module and the clock. *)
Record Env := mkEnv {
  this : Notebook;
  self : inst;
  saveGist : Debounced;
  now : nat
}.

(** Field updates. *)
Definition set_uniqueId (n : nat) (b : Notebook) : Notebook :=
  mkNotebook n (rendering b) (execution b) (user_id b) (gist b) (collection b)
    (childNodes b) (loading b) (views b) (effects b).
Definition set_rendering (r : bool) (b : Notebook) : Notebook :=
  mkNotebook (_uniqueId b) r (execution b) (user_id b) (gist b) (collection b)
    (childNodes b) (loading b) (views b) (effects b).
Definition set_execution (x : bool) (b : Notebook) : Notebook :=
  mkNotebook (_uniqueId b) (rendering b) x (user_id b) (gist b) (collection b)
    (childNodes b) (loading b) (views b) (effects b).
Definition set_gist (g : Gist) (b : Notebook) : Notebook :=
  mkNotebook (_uniqueId b) (rendering b) (execution b) (user_id b) g
    (collection b) (childNodes b) (loading b) (views b) (effects b).
Definition set_collection (c : list cid) (b : Notebook) : Notebook :=
  mkNotebook (_uniqueId b) (rendering b) (execution b) (user_id b) (gist b) c
    (childNodes b) (loading b) (views b) (effects b).
Definition set_childNodes (d : list cid) (b : Notebook) : Notebook :=
  mkNotebook (_uniqueId b) (rendering b) (execution b) (user_id b) (gist b)
    (collection b) d (loading b) (views b) (effects b).
Definition set_loading (l : bool) (b : Notebook) : Notebook :=
  mkNotebook (_uniqueId b) (rendering b) (execution b) (user_id b) (gist b)
    (collection b) (childNodes b) l (views b) (effects b).
Definition set_views (vs : list View) (b : Notebook) : Notebook :=
  mkNotebook (_uniqueId b) (rendering b) (execution b) (user_id b) (gist b)
    (collection b) (childNodes b) (loading b) vs (effects b).
Definition set_effects (t : list Effect) (b : Notebook) : Notebook :=
  mkNotebook (_uniqueId b) (rendering b) (execution b) (user_id b) (gist b)
    (collection b) (childNodes b) (loading b) (views b) t.

Definition set_this (b : Notebook) (e : Env) : Env :=
  mkEnv b (self e) (saveGist e) (now e).
Definition set_saveGist (d : Debounced) (e : Env) : Env :=
  mkEnv (this e) (self e) d (now e).

Definition set_value (s : string) (w : View) : View :=
  mkView (type w) s (_uniqueCellId w) (cursor w).
Definition set_uniqueCellId (i : option nat) (w : View) : View :=
  mkView (type w) (value w) i (cursor w).
Definition set_cursor (c : Cursor) (w : View) : View :=
  mkView (type w) (value w) (_uniqueCellId w) c.

(** ** The monad of the methods *)

(** [TypeError] is the error of JavaScript; [OutOfFuel] marks a loop of the
    model that was cut short, which the theorems below exclude. *)
Inductive Error := TypeError | OutOfFuel.

Inductive Result (A : Type) :=
| Ok (a : A) (e : Env)
| Throw (err : Error) (e : Env).
Arguments Ok {A} a e.
Arguments Throw {A} err e.

Definition M (A : Type) := Env -> Result A.

Definition ret {A} (a : A) : M A := fun e => Ok a e.
Definition bind {A B} (m : M A) (k : A -> M B) : M B :=
  fun e => match m e with
           | Ok a e' => k a e'
           | Throw err e' => Throw err e'
           end.
Definition throw {A} (err : Error) : M A := fun e => Throw err e.

Notation "'let*' x := m 'in' k" := (bind m (fun x => k))
  (at level 10, x name, m at level 100, k at level 200).
Notation "m >> k" := (bind m (fun _ => k))
  (at level 100, k at level 200, right associativity).

Definition gets {A} (f : Notebook -> A) : M A := fun e => Ok (f (this e)) e.
Definition modify (f : Notebook -> Notebook) : M unit :=
  fun e => Ok tt (set_this (f (this e)) e).
Definition when (b : bool) (m : M unit) : M unit := if b then m else ret tt.

(** The environment a call ends in, returned or thrown. *)
Definition env_of {A} (r : Result A) : Env :=
  match r with Ok _ e => e | Throw _ e => e end.

(** [x.view] and the like on a value that may be [undefined]. *)
Definition deref {A} (o : option A) : M A :=
  match o with Some a => ret a | None => throw TypeError end.

(** ** The registry: [collections/notebook] *)

(** [indexOf]: the position of the first occurrence. *)
Fixpoint indexOf (m : cid) (l : list cid) : option nat :=
  match l with
  | [] => None
  | x :: l' => if decide (x = m) then Some 0 else S <$> indexOf m l'
  end.

(** Modelled from the spec: the collection of [collections/notebook], which
    is not in this file.  [getNext] and [getPrev] return the adjacent cell in
    registry order, or none at the boundaries (and none for a cell the
    registry does not hold). *)
Definition getNext (l : list cid) (m : cid) : option cid :=
  i ← indexOf m l; l !! S i.

Definition getPrev (l : list cid) (m : cid) : option cid :=
  match indexOf m l with
  | Some (S i) => l !! i
  | _ => None
  end.

(** Modelled from the spec: [collection.get(cid)], the cell of that identity
    when the registry holds it. *)
Definition get (l : list cid) (c : cid) : option cid :=
  if decide (c ∈ l) then Some c else None.

(** Modelled from the spec: [sort] re-derives the registry order from the
    live presentation order, a reconciliation pass in which the presentation
    is authoritative; cells without a place in the presentation keep their
    relative order behind the others. *)
Definition sort (dom l : list cid) : list cid :=
  filter (λ c, c ∈ l) dom ++ filter (λ c, c ∉ dom) l.

(** Removal by identity. *)
Definition without (c : cid) (l : list cid) : list cid :=
  filter (λ x, x ≠ c) l.

(** ** The presentation: the child nodes of [this.el] *)

Definition previousSibling (nodes : list cid) (el : cid) : option cid :=
  getPrev nodes el.
Definition nextSibling (nodes : list cid) (el : cid) : option cid :=
  getNext nodes el.

(** [parent.insertBefore(el, ref)] on the nodes that are left once [el] is
    taken out of its old place. *)
Fixpoint insert_before (el ref : cid) (nodes : list cid) : list cid :=
  match nodes with
  | [] => []
  | x :: nodes' =>
      if decide (x = ref) then el :: x :: nodes'
      else x :: insert_before el ref nodes'
  end.

Fixpoint insert_after (el ref : cid) (nodes : list cid) : list cid :=
  match nodes with
  | [] => []
  | x :: nodes' =>
      if decide (x = ref) then x :: el :: nodes'
      else x :: insert_after el ref nodes'
  end.

Definition insertBefore (el ref : cid) : M unit :=
  modify (λ b, set_childNodes (insert_before el ref (without el (childNodes b))) b).

(** Modelled from the spec: [lib/insert-after] puts [el] immediately after
    [before]; a [before] that is in no parent has no [parentNode] to insert
    into. *)
Definition insertAfter (el before : cid) : M unit :=
  let* nodes := gets childNodes in
  if decide (before ∈ nodes)
  then modify (set_childNodes (insert_after el before (without el nodes)))
  else throw TypeError.

Definition appendChild (el : cid) : M unit :=
  modify (λ b, set_childNodes (without el (childNodes b) ++ [el]) b).

(** ** Saving *)

Definition emit (x : Effect) : M unit :=
  modify (λ b, set_effects (effects b ++ [x]) b).

(** Modelled from the spec: underscore's [_.debounce(f, 500)] is a coalescing
    trigger with a fixed delay: a call keeps its context and restarts the
    timer, and [f] runs once, on the last context, when the timer expires. *)
Definition saveGist_call : M unit :=
  λ e, Ok tt (set_saveGist (Some (self e, now e + 500)) e).

Definition save : M unit :=
  let* r := gets rendering in
  when (negb r) saveGist_call.

(** The registry events the notebook listens to: [remove], [sort] and
    [change] run [save]. *)
Definition collection_sort : M unit :=
  modify (λ b, set_collection (sort (childNodes b) (collection b)) b) >> save.

Definition collection_remove (m : cid) : M unit :=
  let* l := gets collection in
  if decide (m ∈ l)
  then modify (set_collection (without m l)) >> save
  else ret tt.

Definition collection_push (m : cid) : M unit :=
  modify (λ b, set_collection (collection b ++ [m]) b).

(** ** The cell views *)

Definition view_of (v : cid) : M View :=
  let* vs := gets views in deref (vs !! v).

Definition update_view (v : cid) (f : View → View) : M unit :=
  modify (λ b, set_views (alter f v (views b)) b).

(** [new CodeView()], [new TextView()]: a fresh view with its model. *)
Definition new_view (t : CellType) : M cid :=
  let* vs := gets views in
  modify (set_views (vs ++ [mkView t EmptyString None AtStart])) >> ret (length vs).

Definition focus (v : cid) : M unit := emit (Focus v).

Definition moveCursorToEnd (v : cid) (toStart : bool) : M unit :=
  update_view v (set_cursor (if toStart then AtStart else AtEnd)).

Definition getValue (v : cid) : M string :=
  let* w := view_of v in ret (value w).

(** [model.set('value', s)]: a value that differs raises [change], which
    reaches the registry that holds the model. *)
Definition model_set (v : cid) (s : string) : M unit :=
  let* w := view_of v in
  if decide (value w = s) then ret tt
  else
    update_view v (set_value s) >>
    let* l := gets collection in
    when (bool_decide (v ∈ l)) save.

(** Modelled from the spec: the widget's [setValue(text)]; the editor keeps
    the model in step with its content, and [undefined] is no text to set. *)
Definition setValue (v : cid) (s : option string) : M unit :=
  match s with
  | Some s => model_set v s
  | None => ret tt
  end.

Definition getCursor (v : cid) : M Cursor :=
  let* w := view_of v in ret (cursor w).
Definition setCursor (v : cid) (c : Cursor) : M unit :=
  update_view v (set_cursor c).

(** Modelled from the spec: [browseToCell(model)] makes the view show the
    content of the located cell. *)
Definition browseToCell (v m : cid) : M unit :=
  let* w := view_of m in setValue v (Some (value w)).

(** ** Navigation in the registry *)

Definition getNextView (view : cid) : M (option cid) :=
  let* l := gets collection in ret (getNext l view).

Definition getPrevView (view : cid) : M (option cid) :=
  let* l := gets collection in ret (getPrev l view).

(** ** Appending views *)

Definition appendView (view : cid) (before : option cid) : M unit :=
  let* w := view_of view in
  (if decide (type w = code)
   then
     let* n := gets _uniqueId in
     update_view view (set_uniqueCellId (Some n)) >>
     modify (set_uniqueId (S n))
   else ret tt) >>
  (match before with
   | Some b => insertAfter view b
   | None => appendChild view
   end) >>
  collection_push view >>
  (match before with
   | Some _ => collection_sort
   | None => ret tt
   end).

Definition appendCodeView (el : option cid) (s : option string) : M cid :=
  let* view := new_view code in
  appendView view el >>
  setValue view s >>
  moveCursorToEnd view false >>
  ret view.

Definition appendTextView (el : option cid) (s : option string) : M cid :=
  let* view := new_view text in
  appendView view el >>
  setValue view s >>
  moveCursorToEnd view false >>
  ret view.

(** ** The events of the cell views and their handlers *)

Module Ev.
Inductive t :=
| navigateUp
| navigateDown
| moveUp
| moveDown
| clone (c : cid)
| remove
| switch
| code (payload : string)
| execute
| text (payload : string)
| browseUp (currentCid : cid)
| browseDown (currentCid : cid).
End Ev.

Definition on_navigateUp (view : cid) : M unit :=
  let* prevView := getPrevView view in
  match prevView with
  | Some p => focus p >> moveCursorToEnd p false
  | None => ret tt
  end.

Definition on_navigateDown (view : cid) : M unit :=
  let* nextView := getNextView view in
  match nextView with
  | Some n => focus n >> moveCursorToEnd n true
  | None => ret tt
  end.

Definition on_moveUp (view : cid) : M unit :=
  let* nodes := gets childNodes in
  match previousSibling nodes view with
  | None => ret tt
  | Some p => insertBefore view p >> focus view >> collection_sort
  end.

Definition on_moveDown (view : cid) : M unit :=
  let* nodes := gets childNodes in
  match nextSibling nodes view with
  | None => ret tt
  | Some n => insertAfter view n >> focus view >> collection_sort
  end.

Definition on_clone (view clone : cid) : M unit :=
  appendView clone (Some view) >>
  let* c := getCursor view in
  focus clone >>
  setCursor clone c.

Definition on_remove (view : cid) : M unit :=
  let* nodes := gets childNodes in
  (if length nodes <? 2
   then appendCodeView (Some view) None >> ret tt
   else ret tt) >>
  let* nextView := getNextView view in
  let* prevView := getPrevView view in
  (match nextView, prevView with
   | Some n, _ => focus n >> moveCursorToEnd n false
   | None, Some p => focus p >> moveCursorToEnd p false
   | None, None => ret tt
   end) >>
  collection_remove view.

(** Modelled from the spec: the [remove()] of a view (it is in [views/view],
    not in this file) raises [remove] and takes the view out of the
    presentation. *)
Definition view_remove (view : cid) : M unit :=
  on_remove view >>
  modify (λ b, set_childNodes (without view (childNodes b)) b).

Definition on_switch (view : cid) : M unit :=
  let* w := view_of view in
  let* newView :=
    (if decide (type w = text)
     then appendCodeView (Some view) (Some (value w))
     else appendTextView (Some view) (Some (value w))) in
  let* c := getCursor view in
  view_remove view >>
  focus newView >>
  setCursor newView c.

Definition nonempty (s : string) : bool := negb (String.eqb s EmptyString).

Definition on_code (view : cid) (payload : string) : M unit :=
  let* nodes := gets childNodes in
  (if nonempty payload || bool_decide (last nodes = Some view)
   then appendCodeView (Some view) (Some payload) >> ret tt
   else ret tt) >>
  let* nextView := getNextView view in
  let* n := deref nextView in
  moveCursorToEnd n true >>
  focus n >>
  let* s := getValue view in
  if nonempty s then ret tt else view_remove view.

Definition on_execute (view : cid) : M unit :=
  let* x := gets execution in
  if x then ret tt
  else
    let* nodes := gets childNodes in
    if bool_decide (last nodes = Some view)
    then let* n := appendCodeView None None in focus n
    else
      let* nextView := getNextView view in
      let* n := deref nextView in
      moveCursorToEnd n true >> focus n.

Definition on_text (view : cid) (payload : string) : M unit :=
  let* n := appendTextView (Some view) (Some payload) in
  focus n >>
  let* s := getValue view in
  if nonempty s then ret tt else view_remove view.

(** [while (model = this.collection.getPrev(model))]: the scan of
    [browseUp], one unit of fuel for each evaluation of the guard. *)
Fixpoint browseUp_scan (fuel : nat) (view : cid) (model : option cid) : M unit :=
  match fuel with
  | 0 => throw OutOfFuel
  | S fuel' =>
      let* l := gets collection in
      match model ≫= getPrev l with
      | None => ret tt
      | Some m =>
          let* w := view_of m in
          if decide (type w = code)
          then browseToCell view m >> moveCursorToEnd view false
          else browseUp_scan fuel' view (Some m)
      end
  end.

Fixpoint browseDown_scan (fuel : nat) (view : cid) (model : option cid) : M unit :=
  match fuel with
  | 0 => throw OutOfFuel
  | S fuel' =>
      let* l := gets collection in
      match model ≫= getNext l with
      | None => ret tt
      | Some m =>
          let* w := view_of m in
          if decide (type w = code)
          then browseToCell view m >> moveCursorToEnd view true
          else browseDown_scan fuel' view (Some m)
      end
  end.

(** The handlers of [browseUp] and [browseDown].  For a reference that
    the registry does not hold, the source hands [undefined] to [getPrev]
    and [getNext], whose answer is with the collection, not in this file;
    here the scan ends at once. *)
Definition on_browseUp (view currentCid : cid) : M unit :=
  let* l := gets collection in
  browseUp_scan (S (length l)) view (get l currentCid).

Definition on_browseDown (view currentCid : cid) : M unit :=
  let* l := gets collection in
  browseDown_scan (S (length l)) view (get l currentCid).

(** [view.trigger(name, view, ...)]: [appendView] registers the first seven
    handlers for every editor view, [code] for text views only and the last
    four for code views only. *)
Definition trigger (view : cid) (ev : Ev.t) : M unit :=
  let* w := view_of view in
  match ev, type w with
  | Ev.navigateUp, _ => on_navigateUp view
  | Ev.navigateDown, _ => on_navigateDown view
  | Ev.moveUp, _ => on_moveUp view
  | Ev.moveDown, _ => on_moveDown view
  | Ev.clone c, _ => on_clone view c
  | Ev.remove, _ => on_remove view
  | Ev.switch, _ => on_switch view
  | Ev.code s, text => on_code view s
  | Ev.execute, code => on_execute view
  | Ev.text s, code => on_text view s
  | Ev.browseUp c, code => on_browseUp view c
  | Ev.browseDown c, code => on_browseDown view c
  | _, _ => ret tt
  end.

(** ** Running the notebook: [Notebook.prototype.execute] *)

(** Where a run stands when control goes back to the event loop: done, or
    waiting for the sandbox to complete the execution of a code cell. *)
Inductive Status := Finished | Awaiting (view : cid).

(** Modelled from the spec: the [execute(done)] of a code view (it is in
    [views/cells/code]) hands the content of the cell to the sandbox and
    returns; [sandbox_return] below is its completion. *)
Definition view_execute (view : cid) : M unit :=
  let* w := view_of view in emit (SandboxExecute view (value w)).

(** The named function [execution] of [execute] (the flag of the notebook
    has that name here), up to the point where it returns to the event loop;
    one unit of fuel for each call. *)
Fixpoint execution_from (fuel : nat) (cb : bool) (view : option cid) : M Status :=
  match fuel with
  | 0 => throw OutOfFuel
  | S fuel' =>
      match view with
      | None =>
          modify (set_execution false) >>
          when cb (emit Completion) >>
          ret Finished
      | Some v =>
          focus v >>
          moveCursorToEnd v false >>
          let* w := view_of v in
          if decide (type w = code)
          then view_execute v >> ret (Awaiting v)
          else let* n := getNextView v in execution_from fuel' cb n
      end
  end.

(** [execute(cb)]; [cb] tells whether a callback was passed. *)
Definition execute (cb : bool) : M Status :=
  modify (set_execution true) >>
  let* l := gets collection in
  let* first := deref (head l) in
  execution_from (S (length l)) cb (Some first).

(** [function (err, result) { execution(that.getNextView(view)); }] *)
Definition execute_callback (cb : bool) (view : cid) (o : Outcome) : M Status :=
  let* n := getNextView view in
  let* l := gets collection in
  execution_from (S (length l)) cb n.

(** Modelled from the spec: when the sandbox completes, the code view raises
    [execute] and then calls the callback it was given with the outcome. *)
Definition sandbox_return (cb : bool) (view : cid) (o : Outcome) : M Status :=
  emit (SandboxReturn view o) >>
  trigger view Ev.execute >>
  execute_callback cb view o.

(** A whole run: the sandbox answers the calls, one at a time, with the
    outcomes of [answers]. *)
Fixpoint resume (cb : bool) (answers : list Outcome) (st : Status) : M Status :=
  match st, answers with
  | Awaiting v, o :: answers' =>
      let* st' := sandbox_return cb v o in resume cb answers' st'
  | _, _ => ret st
  end.

Definition execute_run (cb : bool) (answers : list Outcome) : M Status :=
  let* st := execute cb in resume cb answers st.

(** ** Lifecycle *)

(** [initialize(options)]: the notebook of a gist whose registry is empty. *)
Definition initialize (user : option string) (g : Gist) : Notebook :=
  mkNotebook 0 false false user g [] [] false [] [].

Definition updateUser : M unit := save.

(** The class [\s] of a JavaScript regular expression, by code point: the
    white space and the line terminators of ECMAScript,
    [[\t\n\v\f\r \u00a0\u1680\u2000-\u200a\u2028\u2029\u202f\u205f\u3000\ufeff]]. *)
Definition is_space (n : N) : bool :=
  (((9 <=? n) && (n <=? 13)) || (n =? 32) || (n =? 160) || (n =? 5760) ||
   ((8192 <=? n) && (n <=? 8202)) || (n =? 8232) || (n =? 8233) ||
   (n =? 8239) || (n =? 8287) || (n =? 12288) || (n =? 65279))%N.

(** The code point of a sequence of one, two or three bytes of UTF-8, when
    the bytes are the encoding of one; the code points of four bytes are
    beyond the class [\s]. *)
Definition continuation (c : Ascii.ascii) : option N :=
  let n := Ascii.N_of_ascii c in
  if ((128 <=? n) && (n <? 192))%N then Some (n - 128)%N else None.

Definition code_point1 (c : Ascii.ascii) : option N :=
  let n := Ascii.N_of_ascii c in
  if (n <? 128)%N then Some n else None.

Definition code_point2 (c1 c2 : Ascii.ascii) : option N :=
  let n := Ascii.N_of_ascii c1 in
  if ((194 <=? n) && (n <? 224))%N
  then x ← continuation c2; Some ((n - 192) * 64 + x)%N
  else None.

Definition code_point3 (c1 c2 c3 : Ascii.ascii) : option N :=
  let n := Ascii.N_of_ascii c1 in
  if ((224 <=? n) && (n <? 240))%N
  then
    x ← continuation c2; y ← continuation c3;
    let k := ((n - 224) * 4096 + x * 64 + y)%N in
    if (2048 <=? k)%N then Some k else None
  else None.

Definition space_point (o : option N) : bool :=
  match o with Some n => is_space n | None => false end.

(** Whether [s] matches [\s*$] from its start: every character of [s] is in
    the class [\s]. *)
Fixpoint blank (s : string) : bool :=
  match s with
  | EmptyString => true
  | String c1 s1 =>
      if space_point (code_point1 c1) then blank s1
      else
        match s1 with
        | String c2 s2 =>
            if space_point (code_point2 c1 c2) then blank s2
            else
              match s2 with
              | String c3 s3 =>
                  if space_point (code_point3 c1 c2 c3) then blank s3
                  else false
              | EmptyString => false
              end
        | EmptyString => false
        end
  end.

(** [trim.right(s)], that is [s.replace(/\s*$/, '')] in the package [trim]:
    [s] without the white space it ends with.  The match of [\s*$] starts
    at the first position from which only white space follows. *)
Fixpoint trim_right (s : string) : string :=
  match s with
  | EmptyString => EmptyString
  | String c s' => if blank s then EmptyString else String c (trim_right s')
  end.

Definition truthy (o : option string) : bool :=
  match o with Some s => nonempty s | None => false end.

Section Serializer.

(** The exchange format is the contract of the collection, which is not
    in this file: a cell record is its variant and its content. *)
Variable serializeForGist : list (CellType * string) → string.
Variable deserializeFromGist : string → list (CellType * string).

Definition records (b : Notebook) : list (CellType * string) :=
  omap (λ c, (λ w, (type w, value w)) <$> views b !! c) (collection b).

(** The function that [saveGist] debounces. *)
Definition saveGist_body : M unit :=
  let* u := gets user_id in
  let* g := gets gist in
  if negb (truthy u) || negb (gist_isOwner g) then ret tt
  else
    let* b := gets id in
    let s := serializeForGist (records b) in
    if negb (nonempty (trim_right s)) then ret tt
    else
      modify (set_gist
        (mkGist (gist_isNew g) (gist_isOwner g) s (gist_saved g ++ [s]))).

Definition doneRendering : M unit :=
  modify (set_rendering false) >> modify (set_loading false).

Fixpoint append_cells (cells : list (CellType * string)) : M unit :=
  match cells with
  | [] => ret tt
  | (t, s) :: cells' =>
      (if decide (t = text)
       then appendTextView None (Some s)
       else appendCodeView None (Some s)) >>
      append_cells cells'
  end.

Definition renderFromGist : M unit :=
  let* g := gets gist in
  append_cells (deserializeFromGist (gist_notebook g)) >>
  let* nodes := gets childNodes in
  (match nodes with
   | [] => appendCodeView None None >> ret tt
   | _ => ret tt
   end) >>
  let* l := gets collection in
  let* v := deref (last l) in
  focus v.

(** [render()] up to its return: either the notebook is rendered, or the
    fetch of the gist is under way and [rendering] stays set. *)
Inductive Rendering := Rendered | Fetching.

Definition render : M Rendering :=
  modify (set_rendering true) >>
  modify (set_loading true) >>
  let* g := gets gist in
  if gist_isNew g
  then
    updateUser >> renderFromGist >> doneRendering >>
    emit (Navigate EmptyString false) >> ret Rendered
  else ret Fetching.

(** The [success] callback of the fetch, on the gist as fetched. *)
Definition fetch_success (owner : bool) (content : string) : M unit :=
  modify (λ b, set_gist (mkGist false owner content (gist_saved (gist b))) b) >>
  updateUser >>
  modify (set_childNodes []) >>
  renderFromGist >>
  doneRendering.

(** The [error] callback of the fetch. *)
Definition fetch_error : M unit :=
  doneRendering >> emit (Navigate EmptyString true).

(** ** The process: every notebook instance and the one [saveGist] *)

Record Process := mkProcess {
  instances : list Notebook;
  timer : Debounced;
  clock : nat
}.

(** A task of the event loop on instance [i]; what it returns or throws is
    lost, its effects stay. *)
Definition call {A} (i : inst) (m : M A) (p : Process) : Process :=
  match instances p !! i with
  | None => p
  | Some b =>
      let e := env_of (m (mkEnv b i (timer p) (clock p))) in
      mkProcess (<[i := this e]> (instances p)) (saveGist e) (clock p)
  end.

(** The timer of [saveGist] expires: the slot is cleared and the function
    runs on the context of the last call. *)
Definition expire (p : Process) : Process :=
  match timer p with
  | Some (i, deadline) =>
      if decide (deadline ≤ clock p)
      then call i saveGist_body (mkProcess (instances p) None (clock p))
      else p
  | None => p
  end.

(** Time passes with the event loop idle. *)
Definition advance (dt : nat) (p : Process) : Process :=
  expire (mkProcess (instances p) (timer p) (clock p + dt)).

End Serializer.

(** ** What users and the event loop do to a notebook *)

(** Modelled from the spec: the [clone()] of an editor view creates a cell
    of the same variant with the same content, and hands it to the [clone]
    handler. *)
Definition clone_view (view : cid) : M cid :=
  let* w := view_of view in
  let* c := new_view (type w) in
  update_view c (set_value (value w)) >> ret c.

Inductive Action :=
| AppendCode (before : option cid) (s : option string)
| AppendText (before : option cid) (s : option string)
| NavigateUp (view : cid)
| NavigateDown (view : cid)
| MoveUp (view : cid)
| MoveDown (view : cid)
| Clone (view : cid)
| Remove (view : cid)
| Switch (view : cid)
| Code (view : cid) (payload : string)
| Execute (view : cid) (o : Outcome)
| Text (view : cid) (payload : string)
| BrowseUp (view currentCid : cid)
| BrowseDown (view currentCid : cid)
| Edit (view : cid) (s : string)
| RegistryRemove (m : cid)
| RegistrySort
| Save
| UpdateUser.

Definition act (a : Action) : M unit :=
  match a with
  | AppendCode before s => appendCodeView before s >> ret tt
  | AppendText before s => appendTextView before s >> ret tt
  | NavigateUp v => trigger v Ev.navigateUp
  | NavigateDown v => trigger v Ev.navigateDown
  | MoveUp v => trigger v Ev.moveUp
  | MoveDown v => trigger v Ev.moveDown
  | Clone v => let* c := clone_view v in trigger v (Ev.clone c)
  | Remove v => view_remove v
  | Switch v => trigger v Ev.switch
  | Code v s => trigger v (Ev.code s)
  | Execute v o =>
      view_execute v >> emit (SandboxReturn v o) >> trigger v Ev.execute
  | Text v s => trigger v (Ev.text s)
  | BrowseUp v c => trigger v (Ev.browseUp c)
  | BrowseDown v c => trigger v (Ev.browseDown c)
  | Edit v s => model_set v s
  | RegistryRemove m => collection_remove m
  | RegistrySort => collection_sort
  | Save => save
  | UpdateUser => updateUser
  end.

(** The actions happen one after the other; an action that throws ends
    there, and the next one finds the notebook as it was left. *)
Fixpoint run (actions : list Action) (e : Env) : Env :=
  match actions with
  | [] => e
  | a :: actions' => run actions' (env_of (act a e))
  end.

Section Loop.

Variable serializeForGist : list (CellType * string) → string.

(** A step of the process: an action on one instance, or time passing. *)
Inductive Step :=
| Do (i : inst) (a : Action)
| Wait (dt : nat).

Definition step (s : Step) (p : Process) : Process :=
  match s with
  | Do i a => call i (act a) p
  | Wait dt => advance serializeForGist dt p
  end.

Definition run_process (steps : list Step) (p : Process) : Process :=
  foldl (λ p s, step s p) p steps.

End Loop.

(** ** Specifications *)

(** The variant and the content of every constructed cell. *)
Definition cells (b : Notebook) : list (CellType * string) :=
  (λ w, (type w, value w)) <$> views b.

Definition is_code (cs : list (CellType * string)) (c : cid) : bool :=
  match cs !! c with
  | Some (code, _) => true
  | _ => false
  end.

(** The registry invariant of the data model: the registry holds every cell
    once, its order is the presentation order, and its cells are
    constructed. *)
Definition well_formed (b : Notebook) : Prop :=
  NoDup (collection b) ∧
  childNodes b = collection b ∧
  Forall (λ c, c < length (views b)) (collection b).

(** What a walk over the cells [rest] does until it returns to the event
    loop: it focuses the text cells up to the first code cell, hands that one
    to the sandbox and waits, or reaches the end and completes. *)
Fixpoint visit (cs : list (CellType * string)) (cb : bool) (rest : list cid)
  : list Effect * Status :=
  match rest with
  | [] => (if cb then [Completion] else [], Finished)
  | c :: rest' =>
      match cs !! c with
      | Some (code, s) => ([Focus c; SandboxExecute c s], Awaiting c)
      | _ => let r := visit cs cb rest' in (Focus c :: r.1, r.2)
      end
  end.

(** What a whole run over [rest] does when the sandbox answers with
    [answers]. *)
Fixpoint run_trace (cs : list (CellType * string)) (cb : bool)
    (answers : list Outcome) (rest : list cid) : list Effect :=
  match rest with
  | [] => if cb then [Completion] else []
  | c :: rest' =>
      match cs !! c with
      | Some (code, s) =>
          match answers with
          | o :: answers' =>
              Focus c :: SandboxExecute c s :: SandboxReturn c o ::
              run_trace cs cb answers' rest'
          | [] => [Focus c; SandboxExecute c s]
          end
      | _ => Focus c :: run_trace cs cb answers rest'
      end
  end.

(** Readings of a list of effects. *)
Definition focuses (t : list Effect) : list cid :=
  omap (λ x, match x with Focus v => Some v | _ => None end) t.

Definition executed (t : list Effect) : list (cid * string) :=
  omap (λ x, match x with SandboxExecute v s => Some (v, s) | _ => None end) t.

Definition completions (t : list Effect) : nat :=
  length (filter (λ x, x = Completion) t).

(** No execution starts while another is in flight, every completion
    belongs to the execution in flight, and the callback is called with
    nothing in flight. *)
Fixpoint sequential (inflight : option cid) (t : list Effect) : bool :=
  match t with
  | [] => true
  | SandboxExecute v _ :: t' =>
      match inflight with
      | None => sequential (Some v) t'
      | Some _ => false
      end
  | SandboxReturn v _ :: t' =>
      bool_decide (inflight = Some v) && sequential None t'
  | Completion :: t' => bool_decide (inflight = None) && sequential None t'
  | _ :: t' => sequential inflight t'
  end.

(** The scan of [browseUp] as the specification words it: backward through
    the registry from the reference, skipping the cells that are not code,
    to the first code cell. *)
Definition scan_back (cs : list (CellType * string)) (l : list cid)
    (ref : cid) : option cid :=
  i ← indexOf ref l; head (filter (λ c, is_code cs c = true) (reverse (take i l))).


(** The offset of the cursor in the content. *)
Definition cursor_offset (w : View) : nat :=
  match cursor w with
  | AtStart => 0
  | AtEnd => String.length (value w)
  | At k => k
  end.

(** ** Reasoning about the methods *)

(** From [P], [m] returns in [Q] or throws in [I]. *)
Definition hoare {A} (P : Env → Prop) (m : M A) (Q : A → Env → Prop)
    (I : Env → Prop) : Prop :=
  ∀ e, P e →
    match m e with
    | Ok a e' => Q a e'
    | Throw _ e' => I e'
    end.

(** [m] keeps [P], returning or throwing. *)
Definition keeps {A} (P : Env → Prop) (m : M A) : Prop :=
  hoare P m (λ _, P) P.

(** ** Predicates and examples of the statements *)

(** The variant and the id of every constructed cell. *)
Definition tagged (b : Notebook) : list (CellType * option nat) :=
  (λ w, (type w, _uniqueCellId w)) <$> views b.

(** A change of the notebook that leaves the flag of the rendering, the
    gist, the counter and the ids alone. *)
Definition benign (f : Notebook → Notebook) : Prop :=
  ∀ b, rendering (f b) = rendering b ∧ gist (f b) = gist b ∧
       _uniqueId (f b) = _uniqueId b ∧ tagged (f b) = tagged b.

(** A change of the notebook that leaves the flag of the rendering and the
    gist alone. *)
Definition mild (f : Notebook → Notebook) : Prop :=
  ∀ b, rendering (f b) = rendering b ∧ gist (f b) = gist b.

(** The window of a rendering: the flag is set, and the gist and the
    debounced [saveGist] are as they were. *)
Definition quiet (g : Gist) (d : Debounced) (i : inst) (t : nat) (e : Env)
  : Prop :=
  rendering (this e) = true ∧ gist (this e) = g ∧ saveGist e = d ∧
  self e = i ∧ now e = t.

(** A call arms the timer for its own instance, at its own time, or leaves
    it. *)
Definition own_timer (d : Debounced) (i : inst) (t : nat) (e : Env) : Prop :=
  self e = i ∧ now e = t ∧ (saveGist e = d ∨ saveGist e = Some (i, t + 500)).

Definition example_gist : Gist := mkGist false true EmptyString [].

(** An empty notebook, as [initialize] leaves it. *)
Definition empty_env : Env :=
  mkEnv (initialize (Some "octocat"%string) example_gist) 0 None 0.

Definition notebook_of (vs : list View) (n : nat) : Notebook :=
  mkNotebook n false false (Some "octocat"%string) example_gist
    (seq 0 (length vs)) (seq 0 (length vs)) false vs [].

(** [Code:1+1, Text:note, Code:2+2] *)
Definition env_121 : Env :=
  mkEnv (notebook_of
    [mkView code "1+1" (Some 0) AtEnd; mkView text "note" None AtEnd;
     mkView code "2+2" (Some 1) AtEnd] 2) 0 None 0.

(** [Code:a, Text:b, Code:c, Code:d] *)
Definition env_abcd : Env :=
  mkEnv (notebook_of
    [mkView code "a" (Some 0) AtEnd; mkView text "b" None AtEnd;
     mkView code "c" (Some 1) AtEnd; mkView code "d" (Some 2) AtEnd] 3)
    0 None 0.

(** The timer of [saveGist] after a registry event: armed for this instance
    unless the notebook is rendering. *)
Definition armed (e : Env) : Debounced :=
  if rendering (this e) then saveGist e else Some (self e, now e + 500).

(** A notebook whose only cell is the text cell [note]. *)
Definition env_note : Env :=
  mkEnv (notebook_of [mkView text "note" None AtEnd] 0) 0 None 0.

(** What a step of a run leaves alone: the registry, the presentation, and
    the variant and content of every cell. *)
Definition same_registry (b b' : Notebook) : Prop :=
  collection b' = collection b ∧ childNodes b' = childNodes b ∧
  cells b' = cells b.









(** The window of the rendering of instance [i]: the flag is set, the gist
    is [g], and no timer of [saveGist] is pending for [i]. *)
Definition in_window (i : inst) (g : Gist) (p : Process) : Prop :=
  (∃ b, instances p !! i = Some b ∧ rendering b = true ∧ gist b = g) ∧
  ∀ d, timer p ≠ Some (i, d).

(** An exchange format for the examples: the contents, one after the
    other. *)
Definition contents (rs : list (CellType * string)) : string :=
  foldr (λ r s, String.append r.2 s) EmptyString rs.

(** One notebook of the owner, not rendering, with the code cell [x]. *)
Definition process_x : Process :=
  mkProcess
    [notebook_of [mkView code "x" (Some 0) AtEnd] 1] None 0.

(** White space beyond ASCII: a space and a line feed, then a no-break
    space (U+00A0), a line separator (U+2028) and a byte order mark
    (U+FEFF). *)
Definition white : string :=
  String.string_of_list_ascii
    (Ascii.ascii_of_nat <$> [32; 10; 194; 160; 226; 128; 168; 239; 187; 191]).

(** One notebook of the owner whose only cell holds white space. *)
Definition process_white : Process :=
  mkProcess [notebook_of [mkView code white (Some 0) AtEnd] 1] None 0.

(** Two notebooks of their owners, with the code cells [x] and [y]. *)
Definition process_xy : Process :=
  mkProcess
    [notebook_of [mkView code "x" (Some 0) AtEnd] 1;
     notebook_of [mkView code "y" (Some 0) AtEnd] 1] None 0.

(** The scan of [browseDown]: forward through the registry from the
    reference to the first code cell after it. *)
Definition scan_forward (cs : list (CellType * string)) (l : list cid)
    (ref : cid) : option cid :=
  i ← indexOf ref l; head (filter (λ c, is_code cs c = true) (drop (S i) l)).

(** The views that rendering constructs for the cell records of a gist,
    from the id [uid] on: a text cell for a record of type text, a code
    cell with the next id for any other. *)
Fixpoint rendered (uid : nat) (rs : list (CellType * string)) : list View :=
  match rs with
  | [] => []
  | (t, s) :: rs' =>
      if decide (t = text)
      then mkView text s None AtEnd :: rendered uid rs'
      else mkView code s (Some uid) AtEnd :: rendered (S uid) rs'
  end.

Definition code_count (rs : list (CellType * string)) : nat :=
  length (filter (λ r, r.1 = code) rs).

(** What rendering leaves in a notebook without cells: the cells of the
    records, or one empty code cell when there is no record. *)
Definition rendered_or_default (rs : list (CellType * string)) : list View :=
  match rs with
  | [] => [mkView code EmptyString (Some 0) AtEnd]
  | _ => rendered 0 rs
  end.

(** A deserializer for the examples: a heading and the text as code. *)
Definition example_deserialize (s : string) : list (CellType * string) :=
  if nonempty s then [(text, "intro"%string); (code, s)] else [].

(** Whether the function that [saveGist] debounces goes as far as the
    store: the user has an id and owns the gist, and the serialized
    notebook is more than white space. *)
Definition savable (serializeForGist : list (CellType * string) → string)
    (b : Notebook) : bool :=
  truthy (user_id b) && gist_isOwner (gist b) &&
  nonempty (trim_right (serializeForGist (records b))).

(** The notebook of the call is well formed. *)
Definition wf (e : Env) : Prop := well_formed (this e).

(** A view that is constructed and not in the registry. *)
Definition fresh (v : cid) (e : Env) : Prop :=
  wf e ∧ v ∉ collection (this e) ∧ v < length (views (this e)).

(** A change of the notebook that leaves the registry, the presentation
    and the number of views alone. *)
Definition tame (f : Notebook → Notebook) : Prop :=
  ∀ b, collection (f b) = collection b ∧ childNodes (f b) = childNodes b ∧
       length (views (f b)) = length (views b).

(** What users do to the cells of a notebook: every action but the bare
    removal of a model from the registry, which no handler does without
    removing the view as well. *)
Definition is_gesture (a : Action) : bool :=
  match a with
  | RegistryRemove _ => false
  | _ => true
  end.

(** The registry once the handler of [remove] has run: the model is gone
    from it, and the view is still in the presentation. *)
Definition removed (v : cid) (e : Env) : Prop :=
  NoDup (collection (this e)) ∧
  collection (this e) = without v (childNodes (this e)) ∧
  Forall (λ c, c < length (views (this e))) (collection (this e)).

(** * Properties *)

(** ** The registry and the presentation as lists *)

Lemma indexOf_middle (v : cid) (pre post : list cid) :
  v ∉ pre → indexOf v (pre ++ v :: post) = Some (length pre).
Proof.
  induction pre as [|x pre IH]; intros Hv; simpl.
  - by rewrite decide_True.
  - rewrite decide_False by set_solver.
    rewrite IH by set_solver. done.
Qed.

Lemma indexOf_None (v : cid) (l : list cid) : v ∉ l → indexOf v l = None.
Proof.
  induction l as [|x l IH]; intros Hv; simpl; [done|].
  rewrite decide_False by set_solver. rewrite IH by set_solver. done.
Qed.

Lemma indexOf_Some (v : cid) (l : list cid) (i : nat) :
  indexOf v l = Some i → l !! i = Some v ∧ v ∉ take i l.
Proof.
  revert i. induction l as [|x l IH]; intros i; simpl; [done|].
  destruct (decide (x = v)) as [Heq|Hne].
  - intros [= <-]. subst x. simpl. split; [done | set_solver].
  - destruct (indexOf v l) as [j|] eqn:E; [|done].
    intros [= <-]. destruct (IH j eq_refl) as [H1 H2].
    simpl. split; [done|]. apply not_elem_of_cons. split; [congruence | done].
Qed.

Lemma getNext_middle (v : cid) (pre post : list cid) :
  v ∉ pre → getNext (pre ++ v :: post) v = head post.
Proof.
  intros Hv. unfold getNext. rewrite indexOf_middle by done. simpl.
  rewrite lookup_app_r by lia.
  replace (S (length pre) - length pre) with 1 by lia.
  by destruct post.
Qed.

Lemma getPrev_middle (v : cid) (pre post : list cid) :
  v ∉ pre → getPrev (pre ++ v :: post) v = last pre.
Proof.
  intros Hv. unfold getPrev. rewrite indexOf_middle by done.
  destruct pre as [|x pre _] using rev_ind; [done|].
  rewrite length_app, Nat.add_1_r, last_snoc.
  rewrite <- app_assoc. rewrite lookup_app_r by lia.
  by rewrite Nat.sub_diag.
Qed.

Lemma getNext_absent (v : cid) (l : list cid) : v ∉ l → getNext l v = None.
Proof. intros Hv. unfold getNext. by rewrite indexOf_None. Qed.

Lemma getPrev_absent (v : cid) (l : list cid) : v ∉ l → getPrev l v = None.
Proof. intros Hv. unfold getPrev. by rewrite indexOf_None. Qed.

Lemma without_notin (c : cid) (l : list cid) : c ∉ l → without c l = l.
Proof.
  intros Hc. unfold without. induction l as [|x l IH]; [done|].
  rewrite filter_cons_True by set_solver. f_equal. apply IH. set_solver.
Qed.

Lemma without_middle (c : cid) (pre post : list cid) :
  NoDup (pre ++ c :: post) → without c (pre ++ c :: post) = pre ++ post.
Proof.
  intros Hnd. apply NoDup_app in Hnd as (_ & Hpre & Hpost).
  apply NoDup_cons in Hpost as [Hc _].
  unfold without. rewrite filter_app, filter_cons_False by naive_solver.
  fold (without c pre) (without c post).
  rewrite (without_notin c post) by done.
  rewrite (without_notin c pre); [done|].
  intros Hin. apply (Hpre c Hin). set_solver.
Qed.

Lemma insert_after_middle (el ref : cid) (pre post : list cid) :
  ref ∉ pre →
  insert_after el ref (pre ++ ref :: post) = pre ++ ref :: el :: post.
Proof.
  induction pre as [|x pre IH]; intros Hr; simpl.
  - by rewrite decide_True.
  - rewrite decide_False by set_solver. f_equal. apply IH. set_solver.
Qed.

Lemma insert_before_middle (el ref : cid) (pre post : list cid) :
  ref ∉ pre →
  insert_before el ref (pre ++ ref :: post) = pre ++ el :: ref :: post.
Proof.
  induction pre as [|x pre IH]; intros Hr; simpl.
  - by rewrite decide_True.
  - rewrite decide_False by set_solver. f_equal. apply IH. set_solver.
Qed.

Lemma sort_same (l : list cid) : sort l l = l.
Proof.
  unfold sort.
  assert (H1 : ∀ k : list cid, k ⊆ l → filter (λ c, c ∈ l) k = k).
  { induction k as [|x k IH]; intros Hk; [done|].
    rewrite filter_cons_True by set_solver. f_equal. apply IH. set_solver. }
  assert (H2 : ∀ k : list cid, k ⊆ l → filter (λ c, c ∉ l) k = []).
  { induction k as [|x k IH]; intros Hk; [done|].
    rewrite filter_cons_False by set_solver. apply IH. set_solver. }
  rewrite H1, H2 by done. apply app_nil_r.
Qed.

(** ** The monad *)

Lemma bind_Ok {A B} (m : M A) (k : A → M B) (e e' : Env) (a : A) :
  m e = Ok a e' → bind m k e = k a e'.
Proof. unfold bind. by intros ->. Qed.

Lemma bind_Throw {A B} (m : M A) (k : A → M B) (e e' : Env) (err : Error) :
  m e = Throw err e' → bind m k e = Throw err e'.
Proof. unfold bind. by intros ->. Qed.

Lemma hoare_ret {A} (P : Env → Prop) (Q : A → Env → Prop) (I : Env → Prop)
    (a : A) :
  (∀ e, P e → Q a e) → hoare P (ret a) Q I.
Proof. intros H e He. by apply H. Qed.

Lemma hoare_throw {A} (P : Env → Prop) (Q : A → Env → Prop) (I : Env → Prop)
    (err : Error) :
  (∀ e, P e → I e) → hoare P (throw err) Q I.
Proof. intros H e He. by apply H. Qed.

Lemma hoare_bind {A B} (P : Env → Prop) (Q : A → Env → Prop)
    (R : B → Env → Prop) (I : Env → Prop) (m : M A) (k : A → M B) :
  hoare P m Q I → (∀ a, hoare (Q a) (k a) R I) → hoare P (bind m k) R I.
Proof.
  intros Hm Hk e He. specialize (Hm e He). unfold bind.
  destruct (m e) as [a e'|err e']; [by apply Hk | done].
Qed.

Lemma hoare_weaken {A} (P P' : Env → Prop) (Q Q' : A → Env → Prop)
    (I : Env → Prop) (m : M A) :
  hoare P' m Q' I → (∀ e, P e → P' e) → (∀ a e, Q' a e → Q a e) →
  hoare P m Q I.
Proof.
  intros Hm HP HQ e He. specialize (Hm e (HP e He)).
  destruct (m e); [by apply HQ | done].
Qed.

Lemma keeps_ret {A} (P : Env → Prop) (a : A) : keeps P (ret a).
Proof. by apply hoare_ret. Qed.

Lemma keeps_throw {A} (P : Env → Prop) (err : Error) : keeps P (@throw A err).
Proof. by apply hoare_throw. Qed.

Lemma keeps_bind {A B} (P : Env → Prop) (m : M A) (k : A → M B) :
  keeps P m → (∀ a, keeps P (k a)) → keeps P (bind m k).
Proof. intros Hm Hk. by apply hoare_bind with (Q := λ _, P). Qed.

Lemma keeps_gets {A} (P : Env → Prop) (f : Notebook → A) : keeps P (gets f).
Proof. intros e He. done. Qed.

Lemma keeps_deref {A} (P : Env → Prop) (o : option A) : keeps P (deref o).
Proof. destruct o; [apply keeps_ret | apply keeps_throw]. Qed.

Lemma keeps_when (P : Env → Prop) (b : bool) (m : M unit) :
  keeps P m → keeps P (when b m).
Proof. destruct b; [done | intros _; apply keeps_ret]. Qed.

Lemma keeps_modify (P : Env → Prop) (f : Notebook → Notebook) :
  (∀ e, P e → P (set_this (f (this e)) e)) → keeps P (modify f).
Proof. intros H e He. by apply H. Qed.

Lemma keeps_env_of {A} (P : Env → Prop) (m : M A) (e : Env) :
  keeps P m → P e → P (env_of (m e)).
Proof. intros Hm He. specialize (Hm e He). by destruct (m e). Qed.

(** ** Invariants of the handlers *)

Lemma fmap_alter_same {A B} (g : A → B) (f : A → A) (i : nat) (l : list A) :
  (∀ x, g (f x) = g x) → g <$> alter f i l = g <$> l.
Proof.
  intros H. revert i. induction l as [|x l IH]; intros [|i]; simpl; [done..| |].
  - by rewrite H.
  - f_equal. apply IH.
Qed.

Lemma benign_alter (f : View → View) (v : cid) :
  (∀ w, type (f w) = type w ∧ _uniqueCellId (f w) = _uniqueCellId w) →
  benign (λ b, set_views (alter f v (views b)) b).
Proof.
  intros H b. repeat split; try done. unfold tagged. simpl.
  apply fmap_alter_same. intros w. destruct (H w) as [-> ->]. done.
Qed.

Ltac benign_tac :=
  first [ apply benign_alter; intros ?; split; reflexivity
        | intros ?; repeat split; reflexivity ].

Ltac keeps_tac leaf :=
  repeat first
    [ apply keeps_ret
    | apply keeps_throw
    | apply keeps_gets
    | apply keeps_deref
    | leaf
    | apply keeps_when
    | apply keeps_bind; [| intros ?]
    | match goal with
      | |- keeps _ (if ?c then _ else _) => destruct c
      | |- keeps _ (match ?x with _ => _ end) => destruct x
      end ].

Section Generic.

Variable P : Env → Prop.
Hypothesis P_modify : ∀ f, benign f → keeps P (modify f).
Hypothesis P_save : keeps P save.
Hypothesis P_appendCodeView : ∀ el s, keeps P (appendCodeView el s).
Hypothesis P_appendTextView : ∀ el s, keeps P (appendTextView el s).
Hypothesis P_clone :
  ∀ v, keeps P (let* c := clone_view v in trigger v (Ev.clone c)).

Local Ltac leaf :=
  first [ apply P_save | apply P_appendCodeView | apply P_appendTextView
        | apply P_modify; benign_tac ].
Local Ltac go := keeps_tac leaf.

Lemma keeps_emit x : keeps P (emit x).
Proof. unfold emit. go. Qed.

Lemma keeps_focus v : keeps P (focus v).
Proof. apply keeps_emit. Qed.

Lemma keeps_view_of v : keeps P (view_of v).
Proof. unfold view_of. go. Qed.

Lemma keeps_collection_sort : keeps P collection_sort.
Proof. unfold collection_sort. go. Qed.

Lemma keeps_collection_remove m : keeps P (collection_remove m).
Proof. unfold collection_remove. go. Qed.

Lemma keeps_insertBefore el ref : keeps P (insertBefore el ref).
Proof. unfold insertBefore. go. Qed.

Lemma keeps_insertAfter el ref : keeps P (insertAfter el ref).
Proof. unfold insertAfter. go. Qed.

Lemma keeps_moveCursorToEnd v s : keeps P (moveCursorToEnd v s).
Proof. unfold moveCursorToEnd, update_view. go. Qed.

Lemma keeps_setCursor v c : keeps P (setCursor v c).
Proof. unfold setCursor, update_view. go. Qed.

Lemma keeps_getCursor v : keeps P (getCursor v).
Proof. unfold getCursor, view_of. go. Qed.

Lemma keeps_getValue v : keeps P (getValue v).
Proof. unfold getValue, view_of. go. Qed.

Lemma keeps_model_set v s : keeps P (model_set v s).
Proof. unfold model_set, view_of, update_view. go. Qed.

Lemma keeps_setValue v s : keeps P (setValue v s).
Proof. destruct s; [apply keeps_model_set | apply keeps_ret]. Qed.

Lemma keeps_browseToCell v m : keeps P (browseToCell v m).
Proof.
  unfold browseToCell. apply keeps_bind; [apply keeps_view_of|].
  intros w. apply keeps_setValue.
Qed.

Lemma keeps_getNextView v : keeps P (getNextView v).
Proof. unfold getNextView. go. Qed.

Lemma keeps_getPrevView v : keeps P (getPrevView v).
Proof. unfold getPrevView. go. Qed.

Local Ltac leaf2 :=
  first [ leaf | apply keeps_focus | apply keeps_moveCursorToEnd
        | apply keeps_getNextView | apply keeps_getPrevView
        | apply keeps_collection_sort | apply keeps_collection_remove
        | apply keeps_insertBefore | apply keeps_insertAfter
        | apply keeps_getCursor | apply keeps_setCursor
        | apply keeps_getValue | apply keeps_view_of
        | apply keeps_browseToCell | apply keeps_emit
        | apply keeps_model_set ].
Local Ltac go2 := keeps_tac leaf2.

Lemma keeps_on_navigateUp v : keeps P (on_navigateUp v).
Proof. unfold on_navigateUp. go2. Qed.

Lemma keeps_on_navigateDown v : keeps P (on_navigateDown v).
Proof. unfold on_navigateDown. go2. Qed.

Lemma keeps_on_moveUp v : keeps P (on_moveUp v).
Proof. unfold on_moveUp. go2. Qed.

Lemma keeps_on_moveDown v : keeps P (on_moveDown v).
Proof. unfold on_moveDown. go2. Qed.

Lemma keeps_on_remove v : keeps P (on_remove v).
Proof. unfold on_remove. go2. Qed.

Lemma keeps_view_remove v : keeps P (view_remove v).
Proof.
  unfold view_remove. apply keeps_bind; [apply keeps_on_remove|].
  intros _. go2.
Qed.

Lemma keeps_on_switch v : keeps P (on_switch v).
Proof.
  unfold on_switch. apply keeps_bind; [apply keeps_view_of|]. intros w.
  apply keeps_bind; [destruct (decide (type w = text)); leaf|]. intros n.
  apply keeps_bind; [apply keeps_getCursor|]. intros c.
  apply keeps_bind; [apply keeps_view_remove|]. intros _. go2.
Qed.

Lemma keeps_on_code v s : keeps P (on_code v s).
Proof.
  unfold on_code.
  keeps_tac ltac:(first [apply keeps_view_remove | leaf2]).
Qed.

Lemma keeps_on_execute v : keeps P (on_execute v).
Proof. unfold on_execute. go2. Qed.

Lemma keeps_on_text v s : keeps P (on_text v s).
Proof.
  unfold on_text.
  keeps_tac ltac:(first [apply keeps_view_remove | leaf2]).
Qed.

Lemma keeps_browseUp_scan fuel v m : keeps P (browseUp_scan fuel v m).
Proof.
  revert m. induction fuel as [|fuel IH]; intros m; simpl.
  - apply keeps_throw.
  - keeps_tac ltac:(first [apply IH | leaf2]).
Qed.

Lemma keeps_browseDown_scan fuel v m : keeps P (browseDown_scan fuel v m).
Proof.
  revert m. induction fuel as [|fuel IH]; intros m; simpl.
  - apply keeps_throw.
  - keeps_tac ltac:(first [apply IH | leaf2]).
Qed.

Lemma keeps_trigger v ev :
  (∀ c, ev ≠ Ev.clone c) → keeps P (trigger v ev).
Proof.
  intros Hev. unfold trigger. apply keeps_bind; [apply keeps_view_of|].
  intros w.
  destruct ev, (type w); try apply keeps_ret;
    try (by exfalso; eapply Hev);
    first [ apply keeps_on_navigateUp | apply keeps_on_navigateDown
          | apply keeps_on_moveUp | apply keeps_on_moveDown
          | apply keeps_on_remove | apply keeps_on_switch
          | apply keeps_on_code | apply keeps_on_execute
          | apply keeps_on_text
          | unfold on_browseUp;
            apply keeps_bind; [apply keeps_gets | intros ?];
            apply keeps_browseUp_scan
          | unfold on_browseDown;
            apply keeps_bind; [apply keeps_gets | intros ?];
            apply keeps_browseDown_scan ].
Qed.

Lemma keeps_act a : keeps P (act a).
Proof.
  destruct a; simpl;
    try (apply keeps_trigger; intros ?; discriminate).
  - apply keeps_bind; [leaf | intros ?; apply keeps_ret].
  - apply keeps_bind; [leaf | intros ?; apply keeps_ret].
  - apply P_clone.
  - apply keeps_view_remove.
  - apply keeps_bind.
    { unfold view_execute. go2. }
    intros _. apply keeps_bind; [apply keeps_emit|]. intros _.
    apply keeps_trigger. intros ?; discriminate.
  - apply keeps_model_set.
  - apply keeps_collection_remove.
  - apply keeps_collection_sort.
  - apply P_save.
  - apply P_save.
Qed.

Lemma keeps_run actions e : P e → P (run actions e).
Proof.
  revert e. induction actions as [|a actions IH]; intros e He; simpl.
  - done.
  - apply IH. apply keeps_env_of; [apply keeps_act | done].
Qed.

End Generic.

Lemma benign_mild f : benign f → mild f.
Proof. intros H b. destruct (H b) as (? & ? & _). done. Qed.

Section Mild.

Variable P : Env → Prop.
Hypothesis P_modify : ∀ f, mild f → keeps P (modify f).
Hypothesis P_save : keeps P save.

Local Ltac mild_tac := intros ?; split; reflexivity.

Let P_benign : ∀ f, benign f → keeps P (modify f).
Proof. intros f Hf. apply P_modify. by apply benign_mild. Qed.

Lemma mild_new_view t : keeps P (new_view t).
Proof.
  unfold new_view.
  keeps_tac ltac:(apply P_modify; mild_tac).
Qed.

Lemma mild_appendView v before : keeps P (appendView v before).
Proof.
  unfold appendView, update_view, collection_push, appendChild.
  keeps_tac ltac:(first
    [ apply keeps_view_of; assumption
    | apply keeps_insertAfter; assumption
    | apply keeps_collection_sort; assumption
    | apply P_modify; mild_tac ]).
Qed.

Lemma mild_appendCodeView el s : keeps P (appendCodeView el s).
Proof.
  unfold appendCodeView.
  keeps_tac ltac:(first
    [ apply mild_new_view | apply mild_appendView
    | apply keeps_setValue; assumption
    | apply keeps_moveCursorToEnd; assumption ]).
Qed.

Lemma mild_appendTextView el s : keeps P (appendTextView el s).
Proof.
  unfold appendTextView.
  keeps_tac ltac:(first
    [ apply mild_new_view | apply mild_appendView
    | apply keeps_setValue; assumption
    | apply keeps_moveCursorToEnd; assumption ]).
Qed.

Lemma mild_clone v :
  keeps P (let* c := clone_view v in trigger v (Ev.clone c)).
Proof.
  unfold clone_view, trigger, on_clone, update_view.
  keeps_tac ltac:(first
    [ apply keeps_view_of; assumption
    | apply mild_new_view | apply mild_appendView
    | apply keeps_getCursor; assumption
    | apply keeps_setCursor; assumption
    | apply keeps_focus; assumption
    | apply P_modify; mild_tac ]).
Qed.

Lemma mild_run actions e : P e → P (run actions e).
Proof.
  apply keeps_run; auto using mild_appendCodeView, mild_appendTextView,
    mild_clone.
Qed.

Lemma mild_act a : keeps P (act a).
Proof.
  apply keeps_act; auto using mild_appendCodeView, mild_appendTextView,
    mild_clone.
Qed.

End Mild.

Lemma quiet_modify g d i t f : mild f → keeps (quiet g d i t) (modify f).
Proof.
  intros Hf. apply keeps_modify. intros e (Hr & Hg & Hd & Hi & Ht).
  destruct (Hf (this e)) as [Hr' Hg'].
  unfold quiet. simpl. rewrite Hr', Hg'. done.
Qed.

Lemma quiet_save g d i t : keeps (quiet g d i t) save.
Proof.
  intros e He. pose proof He as (Hr & _).
  unfold save, gets, bind. rewrite Hr. simpl. done.
Qed.

Lemma own_timer_modify d i t f : keeps (own_timer d i t) (modify f).
Proof. apply keeps_modify. intros e He. done. Qed.

Lemma own_timer_save d i t : keeps (own_timer d i t) save.
Proof.
  intros e (Hi & Ht & Hd). unfold save, gets, bind, when, saveGist_call.
  destruct (rendering (this e)); simpl; [done|].
  unfold own_timer. simpl. rewrite Hi, Ht. auto.
Qed.

(** ** Example notebooks *)

Global Instance well_formed_dec (b : Notebook) : Decision (well_formed b).
Proof. unfold well_formed. apply _. Defined.

Lemma well_formed_lookup (b : Notebook) (c : cid) :
  well_formed b → c ∈ collection b → is_Some (views b !! c).
Proof.
  intros (_ & _ & Hb) Hc. apply lookup_lt_is_Some.
  by apply (proj1 (Forall_forall _ _) Hb).
Qed.

(** ** Running a notebook whose registry is empty *)

(** C9: on an empty registry [execute(cb)] throws at
    [this.collection.at(0).view], after it has set the flag of the run and
    before anything else: the callback is not called, nothing is handed to
    the sandbox, and the flag stays set. *)
Theorem execute_empty_registry (e : Env) (cb : bool) :
  collection (this e) = [] →
  execute cb e = Throw TypeError (set_this (set_execution true (this e)) e) ∧
  execution (this (env_of (execute cb e))) = true ∧
  effects (this (env_of (execute cb e))) = effects (this e).
Proof.
  intros Hl.
  assert (H : execute cb e
              = Throw TypeError (set_this (set_execution true (this e)) e)).
  { unfold execute, bind, modify, gets. simpl. rewrite Hl. done. }
  rewrite H. done.
Qed.

Lemma execute_empty_registry_witness :
  execute true empty_env
    = Throw TypeError (set_this (set_execution true (this empty_env)) empty_env) ∧
  execution (this (env_of (execute true empty_env))) = true ∧
  effects (this (env_of (execute true empty_env))) = effects (this empty_env).
Proof. apply (execute_empty_registry empty_env true). reflexivity. Defined.

(** ** Moving a cell past the boundary *)

(** C8: [moveUp] on the first cell and [moveDown] on the last cell return
    with the notebook as it was: registry, presentation, cells and all. *)
Theorem move_at_boundary (e : Env) (view : cid) :
  well_formed (this e) →
  (head (collection (this e)) = Some view →
   trigger view Ev.moveUp e = Ok tt e) ∧
  (last (collection (this e)) = Some view →
   trigger view Ev.moveDown e = Ok tt e).
Proof.
  intros Hwf. pose proof Hwf as (Hnd & Hdom & _). split; intros Hv.
  - assert (Hin : view ∈ collection (this e)).
    { destruct (collection (this e)); simplify_eq/=. set_solver. }
    destruct (well_formed_lookup _ _ Hwf Hin) as [w Hw].
    unfold trigger, view_of, gets, bind. simpl. rewrite Hw. simpl.
    unfold on_moveUp, gets, bind. simpl.
    rewrite Hdom. destruct (collection (this e)) as [|x l]; simplify_eq/=.
    unfold previousSibling, getPrev. simpl. by rewrite decide_True.
  - apply last_Some in Hv as [pre Hpre].
    assert (Hin : view ∈ collection (this e)) by (rewrite Hpre; set_solver).
    destruct (well_formed_lookup _ _ Hwf Hin) as [w Hw].
    unfold trigger, view_of, gets, bind. simpl. rewrite Hw. simpl.
    unfold on_moveDown, gets, bind. simpl.
    rewrite Hdom, Hpre. unfold nextSibling.
    rewrite getNext_middle; [done|].
    rewrite Hpre in Hnd. apply NoDup_app in Hnd as (_ & Hd & _).
    intros Hp. apply (Hd _ Hp). set_solver.
Qed.

Lemma move_at_boundary_witness :
  (head (collection (this env_abcd)) = Some 0 →
   trigger 0 Ev.moveUp env_abcd = Ok tt env_abcd) ∧
  (last (collection (this env_abcd)) = Some 0 →
   trigger 0 Ev.moveDown env_abcd = Ok tt env_abcd).
Proof.
  apply (move_at_boundary env_abcd 0).
  apply (bool_decide_unpack _). vm_compute. exact I.
Defined.

(** ** Appending after a cell of the registry *)

Global Arguments without : simpl never.
Global Arguments sort : simpl never.
Global Arguments insert_after : simpl never.
Global Arguments insert_before : simpl never.
Global Arguments getNext : simpl never.
Global Arguments getPrev : simpl never.

Ltac munfold :=
  unfold appendCodeView, appendTextView, appendView, new_view, setValue,
    model_set, moveCursorToEnd, setCursor, getCursor, getValue, focus, emit,
    update_view, view_of, insertAfter, insertBefore, appendChild,
    collection_push, collection_sort, collection_remove, getNextView,
    getPrevView, save, saveGist_call, when, deref, throw, gets, modify, ret,
    bind.

Lemma alter_snoc {A} (f : A → A) (l : list A) (x : A) :
  alter f (length l) (l ++ [x]) = l ++ [f x].
Proof. induction l as [|y l IH]; simpl; [done|]. f_equal. apply IH. Qed.

Lemma lookup_snoc {A} (l : list A) (x : A) : (l ++ [x]) !! length l = Some x.
Proof. rewrite lookup_app_r by lia. by rewrite Nat.sub_diag. Qed.

Lemma sort_reconciles (dom l : list cid) :
  (∀ c, c ∈ dom ↔ c ∈ l) → sort dom l = dom.
Proof.
  intros H. unfold sort.
  assert (H1 : ∀ k : list cid, k ⊆ l → filter (λ c, c ∈ l) k = k).
  { induction k as [|x k IH]; intros Hk; [done|].
    rewrite filter_cons_True by set_solver. f_equal. apply IH. set_solver. }
  assert (H2 : ∀ k : list cid, k ⊆ dom → filter (λ c, c ∉ dom) k = []).
  { induction k as [|x k IH]; intros Hk; [done|].
    rewrite filter_cons_False by set_solver. apply IH. set_solver. }
  rewrite H1, H2 by set_solver. apply app_nil_r.
Qed.

Lemma NoDup_middle (v : cid) (pre post : list cid) :
  NoDup (pre ++ v :: post) → v ∉ pre ∧ v ∉ post.
Proof.
  intros Hnd. apply NoDup_app in Hnd as (_ & Hd & Hp).
  apply NoDup_cons in Hp as [Hp _]. split; [|done].
  intros Hin. apply (Hd _ Hin). set_solver.
Qed.

(** [appendCodeView(view.el, s)] on a cell of a well-formed registry: the
    new cell is constructed, takes the next id, and stands right after
    [view] in the presentation and in the registry. *)
Lemma appendCodeView_after (e : Env) (view : cid) (s : option string)
    (pre post : list cid) :
  well_formed (this e) →
  collection (this e) = pre ++ view :: post →
  let n := length (views (this e)) in
  let b := this e in
  appendCodeView (Some view) s e =
  Ok n (mkEnv
    (mkNotebook (S (_uniqueId b)) (rendering b) (execution b) (user_id b)
      (gist b) (pre ++ view :: n :: post) (pre ++ view :: n :: post)
      (loading b)
      (views b ++ [mkView code (default EmptyString s) (Some (_uniqueId b)) AtEnd])
      (effects b))
    (self e) (armed e) (now e)).
Proof.
  intros Hwf Hc n b. subst b n.
  destruct e as [[uid r x u g coll dom ld vs eff] i d tm]. simpl in *.
  subst coll. destruct Hwf as (Hnd & Hdom & Hlt). simpl in *. subst dom.
  assert (Hn : length vs ∉ pre ++ view :: post).
  { intros Hin. apply (proj1 (Forall_forall _ _) Hlt) in Hin. lia. }
  destruct (NoDup_middle _ _ _ Hnd) as [Hpre Hpost].
  munfold. simpl. rewrite lookup_snoc. simpl.
  rewrite alter_snoc. simpl.
  rewrite decide_True by set_solver. simpl.
  rewrite without_notin by done.
  rewrite insert_after_middle by done.
  rewrite sort_reconciles by set_solver.
  unfold armed. simpl.
  destruct s as [s|]; simpl.
  - destruct r; simpl; rewrite lookup_snoc; simpl;
      (destruct (decide (EmptyString = s)) as [<-|Hs]; simpl;
       [ by rewrite alter_snoc
       | rewrite alter_snoc; simpl;
         rewrite bool_decide_eq_true_2 by set_solver; simpl;
         by rewrite alter_snoc ]).
  - destruct r; simpl; by rewrite alter_snoc.
Qed.

(** ** Removing the only cell *)

(** C4: when the registry holds one cell, its [remove] event leaves the
    registry with one cell, which is a code cell constructed by the handler
    (no earlier view has its identity), empty and with the next id; the
    removed cell is no longer in the registry.  After the whole
    [view.remove()] the presentation holds that one cell too. *)
Theorem remove_only_cell (e : Env) (c : cid) :
  well_formed (this e) →
  collection (this e) = [c] →
  let n := length (views (this e)) in
  let fresh := mkView code EmptyString (Some (_uniqueId (this e))) AtEnd in
  ∃ e' e'',
    trigger c Ev.remove e = Ok tt e' ∧
    collection (this e') = [n] ∧
    c ∉ collection (this e') ∧
    views (this e) !! n = None ∧
    views (this e') !! n = Some fresh ∧
    view_remove c e = Ok tt e'' ∧
    collection (this e'') = [n] ∧
    childNodes (this e'') = [n].
Proof.
  intros Hwf Hc n fresh. subst n fresh.
  set (n := length (views (this e))).
  pose proof (appendCodeView_after e c None [] [] Hwf Hc) as Happ.
  simpl in Happ.
  pose proof Hwf as (Hnd & Hdom & Hlt). rewrite Hc in Hlt.
  apply Forall_cons in Hlt as [Hlt _].
  destruct (lookup_lt_is_Some_2 _ _ Hlt) as [w Hw].
  assert (Hne : c ≠ n) by (unfold n; lia).
  subst n.
  assert (Hrm : ∃ e', on_remove c e = Ok tt e' ∧
            collection (this e') = [length (views (this e))] ∧
            childNodes (this e') = [c; length (views (this e))] ∧
            views (this e') = views (this e) ++
              [mkView code EmptyString (Some (_uniqueId (this e))) AtEnd]).
  { unfold on_remove.
    rewrite (bind_Ok (gets childNodes) _ e e (childNodes (this e))) by done.
    rewrite Hdom, Hc. simpl.
    erewrite bind_Ok; [|erewrite bind_Ok by exact Happ; reflexivity].
    pose proof (getNext_middle c [] [length (views (this e))]) as Hnext.
    pose proof (without_middle c [] [length (views (this e))]) as Hwo.
    simpl in Hnext, Hwo.
    munfold. simpl.
    rewrite Hnext by apply not_elem_of_nil. simpl.
    rewrite decide_True by constructor. simpl.
    rewrite Hwo by (by apply NoDup_cons_2; [rewrite list_elem_of_singleton
                                            | apply NoDup_singleton]).
    simpl. rewrite !alter_snoc. simpl.
    destruct (rendering (this e)); simpl; eauto. }
  destruct Hrm as (e' & He' & Hcoll & Hdom' & Hviews).
  exists e', (set_this (set_childNodes (without c (childNodes (this e')))
                          (this e')) e').
  split_and!.
  - unfold trigger, view_of, gets, bind. simpl. rewrite Hw. simpl. exact He'.
  - done.
  - rewrite Hcoll. by rewrite list_elem_of_singleton.
  - by apply lookup_ge_None_2.
  - rewrite Hviews. apply lookup_snoc.
  - unfold view_remove. erewrite bind_Ok by exact He'. done.
  - done.
  - simpl. rewrite Hdom'.
    pose proof (without_middle c [] [length (views (this e))]) as Hwo.
    simpl in Hwo.
    rewrite Hwo; [done|].
    by apply NoDup_cons_2; [rewrite list_elem_of_singleton
                           | apply NoDup_singleton].
Qed.

Lemma remove_only_cell_witness :
  let e := env_of (appendTextView None (Some "note"%string) empty_env) in
  ∃ e' e'',
    trigger 0 Ev.remove e = Ok tt e' ∧
    collection (this e') = [1] ∧
    0 ∉ collection (this e') ∧
    views (this e) !! 1 = None ∧
    views (this e') !! 1 = Some (mkView code EmptyString (Some 0) AtEnd) ∧
    view_remove 0 e = Ok tt e'' ∧
    collection (this e'') = [1] ∧
    childNodes (this e'') = [1].
Proof.
  apply (remove_only_cell
           (env_of (appendTextView None (Some "note"%string) empty_env)) 0).
  - apply (bool_decide_unpack _). vm_compute. exact I.
  - reflexivity.
Defined.

Lemma NoDup_insert_fresh (n v : cid) (pre post : list cid) :
  NoDup (pre ++ v :: post) → n ∉ pre ++ v :: post →
  NoDup (pre ++ v :: n :: post).
Proof.
  intros Hnd Hn.
  assert (Hp : pre ++ v :: n :: post ≡ₚ n :: (pre ++ v :: post)).
  { change (pre ++ v :: n :: post) with (pre ++ [v] ++ n :: post).
    rewrite (app_assoc pre [v] (n :: post)).
    rewrite <- Permutation_middle. by rewrite <- app_assoc. }
  rewrite Hp. by apply NoDup_cons_2.
Qed.

(** ** The [code] event of a text cell *)

(** C7, as stated, fails: the [code] event with an empty payload on a last
    text cell that has content appends the code cell and keeps the text
    cell in the registry. *)
Lemma code_event_keeps_text_with_content :
  last (collection (this env_note)) = Some 0 ∧
  (type <$> views (this env_note) !! 0) = Some text ∧
  ∃ e', trigger 0 (Ev.code EmptyString) env_note = Ok tt e' ∧
        collection (this e') = [0; 1] ∧
        0 ∈ collection (this e').
Proof.
  split_and!; [done..|]. eexists.
  split_and!; [vm_compute; reflexivity | reflexivity |].
  simpl. constructor.
Qed.

Lemma trigger_code (e : Env) (view : cid) (w : View) (s : string) :
  views (this e) !! view = Some w → type w = text →
  trigger view (Ev.code s) e = on_code view s e.
Proof.
  intros Hw Ht. unfold trigger, view_of, gets, bind, deref. simpl.
  rewrite Hw. simpl. by rewrite Ht.
Qed.

(** C7, amended: on a text cell that is the last cell, the [code] event
    with an empty payload constructs an empty code cell right after it and
    moves the focus into it, the cursor at its start; the text cell is
    removed from the registry and the presentation when it is empty, and
    stays where it is when it has content. *)
Theorem code_event_on_last_text (e : Env) (view : cid) (pre : list cid)
    (w : View) :
  well_formed (this e) →
  collection (this e) = pre ++ [view] →
  views (this e) !! view = Some w →
  type w = text →
  ∃ e' wn,
    trigger view (Ev.code EmptyString) e = Ok tt e' ∧
    views (this e) !! length (views (this e)) = None ∧
    views (this e') !! length (views (this e)) = Some wn ∧
    type wn = code ∧ value wn = EmptyString ∧ cursor_offset wn = 0 ∧
    last (focuses (effects (this e'))) = Some (length (views (this e))) ∧
    collection (this e') =
      (if nonempty (value w)
       then pre ++ [view; length (views (this e))]
       else pre ++ [length (views (this e))]) ∧
    childNodes (this e') = collection (this e').
Proof.
  intros Hwf Hc Hw Ht.
  pose proof (appendCodeView_after e view (Some EmptyString) pre [] Hwf Hc)
    as Happ. simpl in Happ.
  pose proof Hwf as (Hnd & Hdom & Hlt).
  assert (Hvn : view ≠ length (views (this e))).
  { apply lookup_lt_Some in Hw. lia. }
  rewrite Hc in Hnd. destruct (NoDup_middle _ _ _ Hnd) as [Hpre _].
  pose proof (getNext_middle view pre [length (views (this e))] Hpre) as Hnext.
  assert (Hfoc : ∀ t : list Effect, ∀ v : cid,
            last (focuses (t ++ [Focus v])) = Some v).
  { intros t v. unfold focuses. rewrite omap_app. simpl. apply last_snoc. }
  assert (Hnd2 : NoDup (pre ++ view :: [length (views (this e))])).
  { apply (NoDup_insert_fresh _ view pre []); [done|].
    intros Hin. rewrite <- Hc in Hin.
    apply (proj1 (Forall_forall _ _) Hlt) in Hin. lia. }
  rewrite (trigger_code e view w) by done. unfold on_code.
  rewrite (bind_Ok (gets childNodes) _ e e (childNodes (this e))) by done.
  rewrite Hdom, Hc, last_snoc. simpl.
  rewrite bool_decide_eq_true_2 by done.
  erewrite bind_Ok; [|erewrite bind_Ok by exact Happ; reflexivity].
  munfold. simpl. rewrite Hnext. simpl.
  rewrite !alter_snoc. simpl.
  rewrite lookup_app_l by (by apply lookup_lt_Some in Hw).
  rewrite Hw. simpl.
  destruct (nonempty (value w)) eqn:Hval; simpl.
  - eexists _, _.
    split_and!;
      [ reflexivity | by apply lookup_ge_None_2 | simpl; apply lookup_snoc
      | done | done | done | simpl; apply Hfoc | done | done ].
  - unfold view_remove, on_remove. munfold. simpl.
    rewrite length_app. simpl.
    replace (length pre + 2 <? 2) with false
      by (symmetry; apply Nat.ltb_ge; lia).
    simpl. rewrite Hnext. simpl.
    rewrite decide_True by (apply elem_of_app; right; constructor).
    simpl.
    rewrite (without_middle view pre [length (views (this e))] Hnd2).
    rewrite !alter_snoc. simpl.
    destruct (rendering (this e)); simpl;
      (eexists _, _;
       split_and!;
         [ reflexivity | by apply lookup_ge_None_2 | simpl; apply lookup_snoc
         | done | done | done | simpl; apply Hfoc | done
         | simpl;
           by rewrite (without_middle view pre [length (views (this e))] Hnd2)
         ]).
Qed.

Lemma code_event_on_last_text_witness :
  ∃ e' wn,
    trigger 0 (Ev.code EmptyString) env_note = Ok tt e' ∧
    views (this env_note) !! length (views (this env_note)) = None ∧
    views (this e') !! length (views (this env_note)) = Some wn ∧
    type wn = code ∧ value wn = EmptyString ∧ cursor_offset wn = 0 ∧
    last (focuses (effects (this e')))
      = Some (length (views (this env_note))) ∧
    collection (this e') =
      (if nonempty (value (mkView text "note" None AtEnd))
       then [] ++ [0; length (views (this env_note))]
       else [] ++ [length (views (this env_note))]) ∧
    childNodes (this e') = collection (this e').
Proof.
  apply (code_event_on_last_text env_note 0 []
           (mkView text "note" None AtEnd)).
  - apply (bool_decide_unpack _). vm_compute. exact I.
  - reflexivity.
  - reflexivity.
  - reflexivity.
Defined.

(** ** Browsing back through the code cells *)

Lemma is_code_lookup (b : Notebook) (c : cid) (w : View) :
  views b !! c = Some w →
  is_code (cells b) c = bool_decide (type w = code).
Proof.
  intros Hw. unfold is_code, cells. rewrite list_lookup_fmap, Hw. simpl.
  by destruct (type w).
Qed.

Lemma bind_view_of {B} (e : Env) (v : cid) (w : View) (k : View → M B) :
  views (this e) !! v = Some w → bind (view_of v) k e = k w e.
Proof.
  intros Hw. unfold view_of, gets, deref, bind. simpl. by rewrite Hw.
Qed.

(** The loop of [browseUp] from a cell of the registry: it ends within its
    fuel, at the nearest code cell before the cell, or without one. *)
Lemma browseUp_scan_spec (e : Env) (view : cid) (pre : list cid) :
  ∀ (m : cid) (post : list cid) (fuel : nat),
    collection (this e) = pre ++ m :: post →
    well_formed (this e) →
    length pre < fuel →
    browseUp_scan fuel view (Some m) e =
      match head (filter (λ c, is_code (cells (this e)) c = true) (reverse pre)) with
      | Some c => (browseToCell view c >> moveCursorToEnd view false) e
      | None => Ok tt e
      end.
Proof.
  induction pre as [|p pre IH] using rev_ind; intros m post fuel Hc Hwf Hfuel.
  - destruct fuel as [|fuel]; [simpl in Hfuel; lia|]. simpl.
    unfold gets, bind. simpl. rewrite Hc.
    rewrite (getPrev_middle m [] post) by apply not_elem_of_nil. done.
  - destruct fuel as [|fuel]; [simpl in Hfuel; lia|].
    rewrite length_app in Hfuel. simpl in Hfuel.
    pose proof Hwf as (Hnd & _ & _). rewrite Hc in Hnd.
    destruct (NoDup_middle _ _ _ Hnd) as [Hm _].
    assert (Hin : p ∈ collection (this e)).
    { rewrite Hc. rewrite !elem_of_app. left. right. constructor. }
    destruct (well_formed_lookup _ _ Hwf Hin) as [w Hw].
    simpl. unfold gets, bind at 1. simpl. rewrite Hc.
    rewrite (getPrev_middle m (pre ++ [p]) post Hm), last_snoc.
    rewrite (bind_view_of _ _ _ _ Hw).
    rewrite reverse_snoc, filter_cons.
    rewrite (is_code_lookup _ _ _ Hw).
    destruct (decide (type w = code)) as [Hcode|Hcode].
    + rewrite decide_True by (by apply bool_decide_eq_true_2). done.
    + rewrite decide_False
        by (rewrite bool_decide_eq_false_2 by done; discriminate).
      apply (IH p (m :: post) fuel); [|done|lia].
      by rewrite Hc, <- app_assoc.
Qed.

Lemma browse_shows (e : Env) (view m : cid) (wv wm : View) :
  views (this e) !! view = Some wv →
  views (this e) !! m = Some wm →
  ∃ e', (browseToCell view m >> moveCursorToEnd view false) e = Ok tt e' ∧
        views (this e') !! view =
          Some (set_cursor AtEnd (set_value (value wm) wv)) ∧
        collection (this e') = collection (this e).
Proof.
  intros Hv Hm. unfold browseToCell. munfold. simpl. rewrite Hm. simpl.
  rewrite Hv. simpl.
  destruct (decide (value wv = value wm)) as [Heq|Hne]; simpl.
  - eexists. split_and!; [reflexivity | | done]. simpl.
    rewrite list_lookup_alter_eq, Hv. simpl. f_equal.
    destruct wv. simpl in *. by subst.
  - destruct (bool_decide (view ∈ collection (this e))); simpl;
      [destruct (rendering (this e)); simpl|];
      (eexists; split_and!; [reflexivity | | done]; simpl;
       by rewrite !list_lookup_alter_eq, Hv).
Qed.

Lemma indexOf_elem (v : cid) (l : list cid) :
  v ∈ l → ∃ pre post, l = pre ++ v :: post ∧ v ∉ pre.
Proof.
  induction l as [|x l IH]; [by intros ?%elem_of_nil|].
  destruct (decide (x = v)) as [->|Hne].
  - intros _. exists [], l. split; [done | apply not_elem_of_nil].
  - intros [?|Hin]%elem_of_cons; [congruence|].
    destruct (IH Hin) as (pre & post & -> & Hpre).
    exists (x :: pre), post. split; [done|].
    apply not_elem_of_cons. split; [congruence | done].
Qed.

(** C6: [browseUp] with a reference identity scans backward through the
    registry from the reference, over the cells that are not code, to the
    first code cell: the view then shows the content of that cell, the
    cursor at its end, and the registry is as it was; without a code cell
    before the reference nothing changes. *)
Theorem browseUp_scans_back (e : Env) (view ref : cid) (wv : View) :
  well_formed (this e) →
  views (this e) !! view = Some wv →
  type wv = code →
  match scan_back (cells (this e)) (collection (this e)) ref with
  | Some m =>
      ∃ e' wm,
        views (this e) !! m = Some wm ∧ type wm = code ∧
        trigger view (Ev.browseUp ref) e = Ok tt e' ∧
        views (this e') !! view = Some (set_cursor AtEnd (set_value (value wm) wv)) ∧
        collection (this e') = collection (this e)
  | None => trigger view (Ev.browseUp ref) e = Ok tt e
  end.
Proof.
  intros Hwf Hv Ht.
  assert (Htr : trigger view (Ev.browseUp ref) e = on_browseUp view ref e).
  { unfold trigger, view_of, gets, bind, deref. simpl. rewrite Hv. simpl.
    by rewrite Ht. }
  assert (Hon : on_browseUp view ref e =
            browseUp_scan (S (length (collection (this e)))) view
              (get (collection (this e)) ref) e) by reflexivity.
  rewrite Htr, Hon. unfold get.
  destruct (decide (ref ∈ collection (this e))) as [Hin|Hnin].
  - destruct (indexOf_elem _ _ Hin) as (pre & post & Hc & Hpre).
    rewrite (browseUp_scan_spec e view pre ref post);
      [|done|done|rewrite Hc, length_app; lia].
    assert (Hscan : scan_back (cells (this e)) (collection (this e)) ref =
              head (filter (λ c, is_code (cells (this e)) c = true)
                      (reverse pre))).
    { unfold scan_back. rewrite Hc, (indexOf_middle _ _ _ Hpre). simpl.
      by rewrite take_app_length. }
    rewrite Hscan.
    destruct (head (filter _ (reverse pre))) as [m|] eqn:Hh; [|done].
    assert (Hcode : is_code (cells (this e)) m = true).
    { apply head_Some_elem_of in Hh.
      by apply list_elem_of_filter in Hh as [? _]. }
    assert (Hmin : m ∈ collection (this e)).
    { apply head_Some_elem_of in Hh.
      apply list_elem_of_filter in Hh as [_ Hr].
      rewrite Hc, elem_of_app. left. by apply elem_of_reverse. }
    destruct (well_formed_lookup _ _ Hwf Hmin) as [wm Hwm].
    rewrite (is_code_lookup _ _ _ Hwm) in Hcode.
    apply bool_decide_eq_true_1 in Hcode.
    destruct (browse_shows e view m wv wm Hv Hwm) as (e' & He' & Hv' & Hc').
    exists e', wm. done.
  - unfold scan_back. rewrite (indexOf_None _ _ Hnin). done.
Qed.

Lemma browseUp_scans_back_witness :
  ∃ e',
    trigger 3 (Ev.browseUp 3) env_abcd = Ok tt e' ∧
    views (this e') !! 3 = Some (mkView code "c" (Some 2) AtEnd) ∧
    collection (this e') = [0; 1; 2; 3].
Proof.
  pose proof (browseUp_scans_back env_abcd 3 3
                (mkView code "d" (Some 2) AtEnd)) as H.
  simpl in H.
  destruct H as (e' & wm & Hwm & _ & He' & Hv & Hc).
  - apply (bool_decide_unpack _). vm_compute. exact I.
  - reflexivity.
  - reflexivity.
  - exists e'. injection Hwm as <-. done.
Defined.

(** ** The run of a notebook *)

Lemma same_registry_refl b : same_registry b b.
Proof. done. Qed.

Lemma same_registry_trans b1 b2 b3 :
  same_registry b1 b2 → same_registry b2 b3 → same_registry b1 b3.
Proof. intros (? & ? & ?) (? & ? & ?). split_and!; congruence. Qed.

Lemma same_registry_wf b b' :
  same_registry b b' → well_formed b → well_formed b'.
Proof.
  intros (Hc & Hd & Hcs) (Hnd & Hdom & Hlt). unfold well_formed.
  rewrite Hc, Hd. split_and!; [done..|].
  assert (Hlen : length (views b') = length (views b)).
  { unfold cells in Hcs. apply (f_equal length) in Hcs.
    by rewrite !length_fmap in Hcs. }
  by rewrite Hlen.
Qed.

Lemma cells_lookup (b : Notebook) (c : cid) (w : View) :
  views b !! c = Some w → cells b !! c = Some (type w, value w).
Proof. intros Hw. unfold cells. by rewrite list_lookup_fmap, Hw. Qed.

Lemma cells_lookup_inv (b : Notebook) (c : cid) (t : CellType) (s : string) :
  cells b !! c = Some (t, s) →
  ∃ w, views b !! c = Some w ∧ type w = t ∧ value w = s.
Proof.
  unfold cells. rewrite list_lookup_fmap.
  destruct (views b !! c) as [w|]; [|done]. intros [= <- <-]. eauto.
Qed.

Lemma cells_alter_cursor (b : Notebook) (v : cid) (c : Cursor) :
  cells (set_views (alter (set_cursor c) v (views b)) b) = cells b.
Proof. unfold cells. simpl. by apply fmap_alter_same. Qed.

Lemma bind_getNextView {B} (e : Env) (v : cid) (k : option cid → M B) :
  bind (getNextView v) k e = k (getNext (collection (this e)) v) e.
Proof. done. Qed.

(** The walk from a cell of a well-formed registry: it returns within its
    fuel, having done what [visit] says, the registry as it was; the flag
    of the run is cleared exactly when the walk reaches the end. *)
Lemma execution_from_spec (cb : bool) (rest : list cid) :
  ∀ (pre : list cid) (e : Env) (fuel : nat),
    collection (this e) = pre ++ rest →
    well_formed (this e) →
    length rest < fuel →
    ∃ e',
      execution_from fuel cb (head rest) e
        = Ok (visit (cells (this e)) cb rest).2 e' ∧
      effects (this e')
        = effects (this e) ++ (visit (cells (this e)) cb rest).1 ∧
      same_registry (this e) (this e') ∧
      execution (this e') =
        match (visit (cells (this e)) cb rest).2 with
        | Finished => false
        | Awaiting _ => execution (this e)
        end.
Proof.
  induction rest as [|c rest IH]; intros pre e fuel Hc Hwf Hfuel;
    (destruct fuel as [|fuel]; [simpl in Hfuel; lia|]).
  - simpl. munfold. simpl. destruct cb; simpl.
    + eexists. split_and!; done.
    + eexists. split_and!; try done. simpl. by rewrite app_nil_r.
  - pose proof Hwf as (Hnd & _ & _). rewrite Hc in Hnd.
    destruct (NoDup_middle _ _ _ Hnd) as [Hpre _].
    assert (Hin : c ∈ collection (this e)).
    { rewrite Hc, elem_of_app. right. constructor. }
    destruct (well_formed_lookup _ _ Hwf Hin) as [w Hw].
    pose proof (cells_lookup _ _ _ Hw) as Hcw.
    cbn [execution_from head visit]. rewrite Hcw.
    set (e1 := set_this
                 (set_views (alter (set_cursor AtEnd) c (views (this e)))
                    (set_effects (effects (this e) ++ [Focus c]) (this e)))
                 e).
    assert (He1 : ∀ B (k : M B),
              (focus c >> moveCursorToEnd c false >> k) e = k e1).
    { intros B k. by munfold. }
    rewrite He1.
    assert (Hw1 : views (this e1) !! c = Some (set_cursor AtEnd w)).
    { simpl. by rewrite list_lookup_alter_eq, Hw. }
    rewrite (bind_view_of _ _ _ _ Hw1).
    change (type (set_cursor AtEnd w)) with (type w).
    assert (Hsame : same_registry (this e) (this e1)).
    { split_and!; [done..|]. unfold cells. simpl. by apply fmap_alter_same. }
    destruct (type w) eqn:Ht; simpl.
    + unfold view_execute, bind at 1.
      rewrite (bind_view_of _ _ _ _ Hw1).
      munfold. simpl. eexists. split_and!; [reflexivity | | | done].
      * simpl. by rewrite <- app_assoc.
      * done.
    + rewrite bind_getNextView.
      assert (Hc1 : collection (this e1) = (pre ++ [c]) ++ rest).
      { simpl. by rewrite Hc, <- app_assoc. }
      replace (getNext (collection (this e1)) c) with (head rest).
      2:{ simpl. rewrite Hc. by rewrite getNext_middle. }
      destruct (IH (pre ++ [c]) e1 fuel Hc1) as (e' & He' & Heff & Hreg & Hx).
      { by apply (same_registry_wf (this e)). }
      { simpl in Hfuel. lia. }
      pose proof Hsame as (_ & _ & Hcells).
      rewrite Hcells in He', Heff, Hx.
      exists e'. split_and!.
      * done.
      * rewrite Heff. simpl. by rewrite <- app_assoc.
      * by apply (same_registry_trans _ (this e1)).
      * done.
Qed.

(** [execute(cb)] on a well-formed registry that is not empty. *)
Lemma execute_spec (cb : bool) (e : Env) :
  well_formed (this e) →
  collection (this e) ≠ [] →
  ∃ e',
    execute cb e
      = Ok (visit (cells (this e)) cb (collection (this e))).2 e' ∧
    effects (this e')
      = effects (this e) ++ (visit (cells (this e)) cb (collection (this e))).1 ∧
    same_registry (this e) (this e') ∧
    execution (this e') =
      match (visit (cells (this e)) cb (collection (this e))).2 with
      | Finished => false
      | Awaiting _ => true
      end.
Proof.
  intros Hwf Hne.
  set (e0 := set_this (set_execution true (this e)) e).
  assert (He0 : execute cb e =
            execution_from (S (length (collection (this e)))) cb
              (head (collection (this e))) e0).
  { unfold execute. munfold. simpl.
    destruct (collection (this e)); [done|]. done. }
  destruct (execution_from_spec cb (collection (this e)) [] e0
              (S (length (collection (this e)))))
    as (e' & He' & Heff & Hreg & Hx); [done | done | lia |].
  exists e'. rewrite He0. done.
Qed.

Lemma trigger_execute_running (e : Env) (v : cid) (w : View) :
  views (this e) !! v = Some w → type w = code → execution (this e) = true →
  trigger v Ev.execute e = Ok tt e.
Proof.
  intros Hw Ht Hx. unfold trigger. rewrite (bind_view_of _ _ _ _ Hw), Ht.
  unfold on_execute, gets, bind. by rewrite Hx.
Qed.

(** The completion of the execution of a code cell during a run: the
    [execute] event it raises is ignored, and the walk goes on from the next
    cell. *)
Lemma sandbox_return_spec (cb : bool) (e : Env) (v : cid) (o : Outcome)
    (pre rest : list cid) (s : string) :
  well_formed (this e) →
  collection (this e) = pre ++ v :: rest →
  cells (this e) !! v = Some (code, s) →
  execution (this e) = true →
  ∃ e',
    sandbox_return cb v o e = Ok (visit (cells (this e)) cb rest).2 e' ∧
    effects (this e')
      = effects (this e) ++ SandboxReturn v o :: (visit (cells (this e)) cb rest).1 ∧
    same_registry (this e) (this e') ∧
    execution (this e') =
      match (visit (cells (this e)) cb rest).2 with
      | Finished => false
      | Awaiting _ => true
      end.
Proof.
  intros Hwf Hc Hv Hx.
  destruct (cells_lookup_inv _ _ _ _ Hv) as (w & Hw & Ht & _).
  set (e1 := set_this (set_effects (effects (this e) ++ [SandboxReturn v o])
                         (this e)) e).
  pose proof Hwf as (Hnd & _ & _). rewrite Hc in Hnd.
  destruct (NoDup_middle _ _ _ Hnd) as [Hpre _].
  assert (He1 : sandbox_return cb v o e =
            execution_from (S (length (collection (this e)))) cb
              (head rest) e1).
  { unfold sandbox_return.
    change ((emit (SandboxReturn v o) >>
             trigger v Ev.execute >> execute_callback cb v o) e)
      with ((trigger v Ev.execute >> execute_callback cb v o) e1).
    erewrite bind_Ok by (by apply (trigger_execute_running e1 v w)).
    unfold execute_callback. rewrite bind_getNextView.
    change (collection (this e1)) with (collection (this e)).
    replace (getNext (collection (this e)) v) with (head rest)
      by (rewrite Hc; by rewrite getNext_middle).
    done. }
  destruct (execution_from_spec cb rest (pre ++ [v]) e1
              (S (length (collection (this e)))))
    as (e' & He' & Heff & Hreg & Hx').
  { simpl. by rewrite Hc, <- app_assoc. }
  { done. }
  { rewrite Hc, length_app. simpl. lia. }
  exists e'. rewrite He1. split_and!; [done | | done |].
  - rewrite Heff. simpl. by rewrite <- app_assoc.
  - rewrite Hx'. simpl. by rewrite Hx.
Qed.

(** What is left of a run once the walk has stopped. *)
Lemma resume_spec (cb : bool) (b : Notebook) (rest : list cid) :
  ∀ (pre : list cid) (answers : list Outcome) (t0 : list Effect) (e1 : Env),
    collection b = pre ++ rest →
    well_formed b →
    same_registry b (this e1) →
    effects (this e1) = t0 ++ (visit (cells b) cb rest).1 →
    execution (this e1) =
      match (visit (cells b) cb rest).2 with
      | Finished => false
      | Awaiting _ => true
      end →
    length (filter (λ c, is_code (cells b) c = true) rest) ≤ length answers →
    ∃ e',
      resume cb answers (visit (cells b) cb rest).2 e1 = Ok Finished e' ∧
      effects (this e') = t0 ++ run_trace (cells b) cb answers rest ∧
      same_registry b (this e') ∧
      execution (this e') = false.
Proof.
  induction rest as [|c rest IH];
    intros pre answers t0 e1 Hc Hwf Hreg Heff Hx Hans.
  - simpl in *. exists e1. by destruct answers.
  - assert (Hc' : collection b = (pre ++ [c]) ++ rest)
      by (by rewrite Hc, <- app_assoc).
    simpl in Heff, Hx, Hans |- *.
    destruct (cells b !! c) as [[[|] s]|] eqn:Hcell.
    + rewrite filter_cons_True in Hans by (unfold is_code; by rewrite Hcell).
      destruct answers as [|o answers]; [simpl in Hans; lia|].
      simpl in Heff, Hx, Hans |- *.
      pose proof Hreg as (Hc1 & _ & Hcells).
      destruct (sandbox_return_spec cb e1 c o pre rest s)
        as (e2 & He2 & Heff2 & Hreg2 & Hx2).
      { by apply (same_registry_wf b). }
      { by rewrite Hc1. }
      { by rewrite Hcells. }
      { done. }
      rewrite Hcells in He2, Heff2, Hx2.
      destruct (IH (pre ++ [c]) answers
                  (t0 ++ [Focus c; SandboxExecute c s; SandboxReturn c o]) e2)
        as (e' & He' & Heff' & Hreg' & Hx'); [done | done | | | done | lia |].
      { by apply (same_registry_trans _ (this e1)). }
      { rewrite Heff2, Heff. by rewrite <- !app_assoc. }
      exists e'. split_and!; [|rewrite Heff'; by rewrite <- app_assoc|done..].
      erewrite bind_Ok by exact He2. done.
    + rewrite filter_cons_False in Hans by (unfold is_code; by rewrite Hcell).
      destruct (IH (pre ++ [c]) answers (t0 ++ [Focus c]) e1)
        as (e' & He' & Heff' & Hreg' & Hx'); [done.. | | done | done |].
      { rewrite Heff. by rewrite <- app_assoc. }
      exists e'. split_and!; [done | | done..].
      rewrite Heff'. by rewrite <- app_assoc.
    + rewrite filter_cons_False in Hans by (unfold is_code; by rewrite Hcell).
      destruct (IH (pre ++ [c]) answers (t0 ++ [Focus c]) e1)
        as (e' & He' & Heff' & Hreg' & Hx'); [done.. | | done | done |].
      { rewrite Heff. by rewrite <- app_assoc. }
      exists e'. split_and!; [done | | done..].
      rewrite Heff'. by rewrite <- app_assoc.
Qed.

(** A whole run on a well-formed registry that is not empty, the sandbox
    answering every execution: it finishes, with the effects of
    [run_trace]. *)
Lemma execute_run_spec (cb : bool) (e : Env) (answers : list Outcome) :
  well_formed (this e) →
  collection (this e) ≠ [] →
  length (filter (λ c, is_code (cells (this e)) c = true) (collection (this e)))
    ≤ length answers →
  ∃ e',
    execute_run cb answers e = Ok Finished e' ∧
    effects (this e') =
      effects (this e) ++
      run_trace (cells (this e)) cb answers (collection (this e)) ∧
    same_registry (this e) (this e') ∧
    execution (this e') = false.
Proof.
  intros Hwf Hne Hans.
  destruct (execute_spec cb e Hwf Hne) as (e1 & He1 & Heff1 & Hreg1 & Hx1).
  destruct (resume_spec cb (this e) (collection (this e)) [] answers
              (effects (this e)) e1)
    as (e' & He' & Heff' & Hreg' & Hx'); [done..|].
  exists e'. split_and!; [|done..].
  unfold execute_run. erewrite bind_Ok by exact He1. done.
Qed.

(** Readings of the effects of a run. *)
Lemma run_trace_readings (cs : list (CellType * string)) (rest : list cid) :
  ∀ answers : list Outcome,
    length (filter (λ c, is_code cs c = true) rest) ≤ length answers →
    focuses (run_trace cs true answers rest) = rest ∧
    executed (run_trace cs true answers rest)
      = omap (λ c, match cs !! c with
                   | Some (code, s) => Some (c, s)
                   | _ => None
                   end) rest ∧
    completions (run_trace cs true answers rest) = 1 ∧
    last (run_trace cs true answers rest) = Some Completion ∧
    sequential None (run_trace cs true answers rest) = true.
Proof.
  induction rest as [|c rest IH]; intros answers Hans.
  - done.
  - simpl in *.
    destruct (cs !! c) as [[[|] s]|] eqn:Hcell.
    + rewrite filter_cons_True in Hans by (unfold is_code; by rewrite Hcell).
      destruct answers as [|o answers]; [simpl in Hans; lia|].
      destruct (IH answers) as (H1 & H2 & H3 & H4 & H5);
        [simpl in Hans; lia|].
      split_and!.
      * simpl. by rewrite H1.
      * simpl. by rewrite H2.
      * unfold completions in *. by rewrite !filter_cons_False by done.
      * by rewrite !last_cons, H4.
      * simpl. rewrite bool_decide_eq_true_2 by done. done.
    + rewrite filter_cons_False in Hans by (unfold is_code; by rewrite Hcell).
      destruct (IH answers Hans) as (H1 & H2 & H3 & H4 & H5).
      split_and!.
      * simpl. by rewrite H1.
      * simpl. by rewrite H2.
      * unfold completions in *. by rewrite filter_cons_False by done.
      * by rewrite !last_cons, H4.
      * done.
    + rewrite filter_cons_False in Hans by (unfold is_code; by rewrite Hcell).
      destruct (IH answers Hans) as (H1 & H2 & H3 & H4 & H5).
      split_and!.
      * simpl. by rewrite H1.
      * simpl. by rewrite H2.
      * unfold completions in *. by rewrite filter_cons_False by done.
      * by rewrite !last_cons, H4.
      * done.
Qed.

(** C2: whatever the sandbox answers, error or result, a run goes on to
    the next cell: the callback [execute] gives the code view does the same
    for every outcome, and a run on a registry that is not empty, with an
    answer for each code cell, finishes having focused every cell of the
    registry once, in order, executed every code cell once, one at a time,
    and called the completion callback once, at the very end. *)
Theorem run_ignores_outcomes (e : Env) (answers : list Outcome) :
  well_formed (this e) →
  collection (this e) ≠ [] →
  length (filter (λ c, is_code (cells (this e)) c = true) (collection (this e)))
    ≤ length answers →
  (∀ (v : cid) (o1 o2 : Outcome) (e0 : Env),
     execute_callback true v o1 e0 = execute_callback true v o2 e0) ∧
  ∃ e' t,
    execute_run true answers e = Ok Finished e' ∧
    effects (this e') = effects (this e) ++ t ∧
    focuses t = collection (this e) ∧
    executed t
      = omap (λ c, match cells (this e) !! c with
                   | Some (code, s) => Some (c, s)
                   | _ => None
                   end) (collection (this e)) ∧
    sequential None t = true ∧
    completions t = 1 ∧
    last t = Some Completion ∧
    execution (this e') = false.
Proof.
  intros Hwf Hne Hans. split; [done|].
  destruct (execute_run_spec true e answers Hwf Hne Hans)
    as (e' & He' & Heff & _ & Hx).
  destruct (run_trace_readings (cells (this e)) (collection (this e))
              answers Hans) as (H1 & H2 & H3 & H4 & H5).
  exists e', (run_trace (cells (this e)) true answers (collection (this e))).
  done.
Qed.

Lemma run_ignores_outcomes_witness :
  (∀ (v : cid) (o1 o2 : Outcome) (e0 : Env),
     execute_callback true v o1 e0 = execute_callback true v o2 e0) ∧
  ∃ e' t,
    execute_run true [Failure "ReferenceError"; Success "4"] env_121
      = Ok Finished e' ∧
    effects (this e') = effects (this env_121) ++ t ∧
    focuses t = collection (this env_121) ∧
    executed t
      = omap (λ c, match cells (this env_121) !! c with
                   | Some (code, s) => Some (c, s)
                   | _ => None
                   end) (collection (this env_121)) ∧
    sequential None t = true ∧
    completions t = 1 ∧
    last t = Some Completion ∧
    execution (this e') = false.
Proof.
  apply (run_ignores_outcomes env_121
           [Failure "ReferenceError"; Success "4"]).
  - apply (bool_decide_unpack _). vm_compute. exact I.
  - discriminate.
  - vm_compute. lia.
Defined.

(** C1: on the registry [Code:1+1, Text:note, Code:2+2], [execute(cb)]
    hands [1+1] to the sandbox and returns to the event loop; the
    completion of that execution, whatever its outcome, is what focuses the
    text cell and hands [2+2] to the sandbox; the completion of the second
    execution is what calls [cb], once, and clears the flag of the run.
    Nothing else is handed to the sandbox. *)
Theorem execute_three_cells (e : Env) (c1 c2 c3 : cid) (o1 o2 : Outcome) :
  well_formed (this e) →
  collection (this e) = [c1; c2; c3] →
  cells (this e) !! c1 = Some (code, "1+1"%string) →
  cells (this e) !! c2 = Some (text, "note"%string) →
  cells (this e) !! c3 = Some (code, "2+2"%string) →
  ∃ e1 e2 e3,
    execute true e = Ok (Awaiting c1) e1 ∧
    effects (this e1)
      = effects (this e) ++ [Focus c1; SandboxExecute c1 "1+1"] ∧
    sandbox_return true c1 o1 e1 = Ok (Awaiting c3) e2 ∧
    effects (this e2)
      = effects (this e1) ++
        [SandboxReturn c1 o1; Focus c2; Focus c3; SandboxExecute c3 "2+2"] ∧
    sandbox_return true c3 o2 e2 = Ok Finished e3 ∧
    effects (this e3) = effects (this e2) ++ [SandboxReturn c3 o2; Completion] ∧
    execution (this e3) = false.
Proof.
  intros Hwf Hc H1 H2 H3.
  assert (Hne : collection (this e) ≠ []) by (by rewrite Hc).
  destruct (execute_spec true e Hwf Hne) as (e1 & He1 & Heff1 & Hreg1 & Hx1).
  rewrite Hc in He1, Heff1, Hx1. simpl in He1, Heff1, Hx1.
  rewrite H1 in He1, Heff1, Hx1. simpl in He1, Heff1, Hx1.
  pose proof Hreg1 as (Hc1 & _ & Hcs1).
  destruct (sandbox_return_spec true e1 c1 o1 [] [c2; c3] "1+1")
    as (e2 & He2 & Heff2 & Hreg2 & Hx2).
  { by apply (same_registry_wf (this e)). }
  { by rewrite Hc1, Hc. }
  { by rewrite Hcs1. }
  { done. }
  rewrite Hcs1 in He2, Heff2, Hx2. simpl in He2, Heff2, Hx2.
  rewrite H2, H3 in He2, Heff2, Hx2. simpl in He2, Heff2, Hx2.
  pose proof Hreg2 as (Hc2 & _ & Hcs2).
  destruct (sandbox_return_spec true e2 c3 o2 [c1; c2] [] "2+2")
    as (e3 & He3 & Heff3 & Hreg3 & Hx3).
  { apply (same_registry_wf (this e1)); [done|].
    by apply (same_registry_wf (this e)). }
  { by rewrite Hc2, Hc1, Hc. }
  { by rewrite Hcs2, Hcs1. }
  { done. }
  simpl in He3, Heff3, Hx3.
  exists e1, e2, e3. done.
Qed.

Lemma execute_three_cells_witness :
  ∃ e1 e2 e3,
    execute true env_121 = Ok (Awaiting 0) e1 ∧
    effects (this e1)
      = effects (this env_121) ++ [Focus 0; SandboxExecute 0 "1+1"] ∧
    sandbox_return true 0 (Failure "ReferenceError") e1 = Ok (Awaiting 2) e2 ∧
    effects (this e2)
      = effects (this e1) ++
        [SandboxReturn 0 (Failure "ReferenceError"); Focus 1; Focus 2;
         SandboxExecute 2 "2+2"] ∧
    sandbox_return true 2 (Success "4") e2 = Ok Finished e3 ∧
    effects (this e3)
      = effects (this e2) ++ [SandboxReturn 2 (Success "4"); Completion] ∧
    execution (this e3) = false.
Proof.
  apply (execute_three_cells env_121 0 1 2
           (Failure "ReferenceError") (Success "4")).
  - apply (bool_decide_unpack _). vm_compute. exact I.
  - reflexivity.
  - reflexivity.
  - reflexivity.
  - reflexivity.
Defined.

(** ** The ids of the code cells *)


























(** ** Saving while the notebook renders *)

Lemma act_quiet (a : Action) (b : Notebook) (i : inst) (tm : Debounced)
    (clk : nat) :
  rendering b = true →
  rendering (this (env_of (act a (mkEnv b i tm clk)))) = true ∧
  gist (this (env_of (act a (mkEnv b i tm clk)))) = gist b ∧
  saveGist (env_of (act a (mkEnv b i tm clk))) = tm.
Proof.
  intros Hr.
  assert (H : quiet (gist b) tm i clk (env_of (act a (mkEnv b i tm clk)))).
  { apply keeps_env_of; [|done].
    apply mild_act; [apply quiet_modify | apply quiet_save]. }
  destruct H as (? & ? & ? & _). done.
Qed.

Lemma act_own_timer (a : Action) (b : Notebook) (j : inst) (tm : Debounced)
    (clk : nat) :
  saveGist (env_of (act a (mkEnv b j tm clk))) = tm ∨
  saveGist (env_of (act a (mkEnv b j tm clk))) = Some (j, clk + 500).
Proof.
  assert (H : own_timer tm j clk (env_of (act a (mkEnv b j tm clk)))).
  { apply keeps_env_of; [|by split_and!; [..|left]].
    apply mild_act; [intros; apply own_timer_modify | apply own_timer_save]. }
  destruct H as (_ & _ & H). done.
Qed.

Lemma call_lookup_ne {A} (i j : inst) (m : M A) (p : Process) :
  i ≠ j → instances (call j m p) !! i = instances p !! i.
Proof.
  intros Hne. unfold call. destruct (instances p !! j); [|done]. simpl.
  by rewrite list_lookup_insert_ne.
Qed.

Section Persistence.

Variable serializeForGist : list (CellType * string) → string.

Lemma saveGist_body_slot (e : Env) :
  saveGist (env_of (saveGist_body serializeForGist e)) = saveGist e.
Proof.
  unfold saveGist_body, gets, modify, bind, ret. simpl.
  destruct (negb (truthy (user_id (this e))) || negb (gist_isOwner (gist (this e))));
    simpl; [done|].
  by destruct (negb (nonempty (trim_right (serializeForGist (records (this e)))))).
Qed.

Lemma in_window_step (i : inst) (g : Gist) (s : Step) (p : Process) :
  in_window i g p → in_window i g (step serializeForGist s p).
Proof.
  intros [(b & Hb & Hr & Hg) Ht]. destruct s as [j a|dt]; simpl.
  - destruct (decide (j = i)) as [->|Hne].
    + unfold call. rewrite Hb. simpl.
      destruct (act_quiet a b i (timer p) (clock p) Hr) as (Hr' & Hg' & Hs').
      split.
      * eexists. split_and!; [|exact Hr'|congruence].
        apply list_lookup_insert_eq. by apply lookup_lt_Some in Hb.
      * by rewrite Hs'.
    + split.
      * exists b. by rewrite call_lookup_ne.
      * unfold call. destruct (instances p !! j) as [bj|]; [|done]. simpl.
        intros d.
        destruct (act_own_timer a bj j (timer p) (clock p)) as [->| ->];
          [done | congruence].
  - unfold advance, expire. simpl.
    destruct (timer p) as [[j dl]|] eqn:Htm; [|by split; [exists b|]].
    destruct (decide (dl ≤ clock p + dt)); [|by split; [exists b|]].
    assert (Hne : i ≠ j) by (intros ->; by apply (Ht dl)).
    split.
    + exists b. by rewrite call_lookup_ne.
    + unfold call. simpl. destruct (instances p !! j) as [bj|]; [|done].
      simpl. by rewrite saveGist_body_slot.
Qed.

(** C5, amended: while the flag of the rendering of an instance is set,
    a save trigger on it changes nothing at all, so it is skipped and not
    deferred; and when no timer of [saveGist] was pending for the instance
    as the window opened, then whatever is done to the notebooks of the
    process and however long it takes, nothing is handed to the store of
    this instance and no timer is pending for it afterwards. *)
Theorem rendering_skips_saves (p : Process) (i : inst) (b : Notebook)
    (steps : list Step) :
  instances p !! i = Some b →
  rendering b = true →
  call i save p = p ∧
  ((∀ d, timer p ≠ Some (i, d)) →
   ∃ b',
     instances (run_process serializeForGist steps p) !! i = Some b' ∧
     rendering b' = true ∧
     gist b' = gist b ∧
     ∀ d, timer (run_process serializeForGist steps p) ≠ Some (i, d)).
Proof.
  intros Hb Hr. split.
  - unfold call, save, gets, bind. rewrite Hb. simpl. rewrite Hr. simpl.
    rewrite list_insert_id by done. by destruct p.
  - intros Ht.
    assert (H : in_window i (gist b) (run_process serializeForGist steps p)).
    { assert (H0 : in_window i (gist b) p) by (split; [by exists b | done]).
      clear Hb Hr Ht. revert p H0. unfold run_process.
      induction steps as [|s steps IH]; intros p H0; [done|].
      simpl. apply IH. by apply in_window_step. }
    destruct H as [(b' & ? & ? & ?) ?]. by exists b'.
Qed.

End Persistence.

Lemma rendering_skips_saves_witness :
  let p := call 0 (render (λ _, [])) process_x in
  call 0 save p = p ∧
  ((∀ d, timer p ≠ Some (0, d)) →
   ∃ b',
     instances (run_process contents [Do 0 RegistrySort; Wait 1000] p) !! 0
       = Some b' ∧
     rendering b' = true ∧
     gist b' = example_gist ∧
     ∀ d, timer (run_process contents [Do 0 RegistrySort; Wait 1000] p)
            ≠ Some (0, d)).
Proof.
  apply (rendering_skips_saves contents
           (call 0 (render (λ _, [])) process_x) 0
           (set_loading true
              (set_rendering true (notebook_of [mkView code "x" (Some 0) AtEnd] 1)))
           [Do 0 RegistrySort; Wait 1000]).
  - reflexivity.
  - reflexivity.
Defined.

(** C5, as stated, fails: a timer of [saveGist] that was armed before
    [render()] expires while the gist is fetched, and the notebook is handed
    to the store with the flag of the rendering set. *)
Lemma save_fires_while_rendering :
  let p1 := call 0 (act RegistrySort) process_x in
  let p2 := call 0 (render (λ _, [])) p1 in
  let p3 := advance contents 500 p2 in
  timer p1 = Some (0, 500) ∧
  (rendering <$> instances p2 !! 0) = Some true ∧
  (gist_saved ∘ gist <$> instances p2 !! 0) = Some [] ∧
  (rendering <$> instances p3 !! 0) = Some true ∧
  (gist_saved ∘ gist <$> instances p3 !! 0) = Some ["x"%string].
Proof. vm_compute. done. Qed.

(** ** One [saveGist] for every notebook *)

Lemma call_save_armed (i : inst) (b : Notebook) (p : Process) :
  instances p !! i = Some b → rendering b = false →
  call i save p = mkProcess (instances p) (Some (i, clock p + 500)) (clock p).
Proof.
  intros Hb Hr. unfold call, save, gets, bind. rewrite Hb. simpl.
  rewrite Hr. simpl. by rewrite list_insert_id.
Qed.

Lemma saveGist_body_eq (serializeForGist : list (CellType * string) → string)
    (e : Env) :
  saveGist_body serializeForGist e =
  Ok tt
    (if savable serializeForGist (this e)
     then set_this
            (set_gist
               (mkGist (gist_isNew (gist (this e)))
                  (gist_isOwner (gist (this e)))
                  (serializeForGist (records (this e)))
                  (gist_saved (gist (this e)) ++
                   [serializeForGist (records (this e))]))
               (this e)) e
     else e).
Proof.
  unfold saveGist_body, savable, gets, modify, bind, ret. simpl.
  destruct (truthy (user_id (this e))); simpl; [|done].
  destruct (gist_isOwner (gist (this e))); simpl; [|done].
  by destruct (nonempty (trim_right (serializeForGist (records (this e))))).
Qed.

(** C10: the debounced [saveGist] belongs to the module, not to a notebook.
    When a save trigger of instance [B] comes within the delay of a pending
    one of instance [A], one timer is pending, that of [B]; nothing runs
    until the delay of [B] has passed, the first deadline included; then the
    function runs once, on [B]: the guards read the user and the gist of
    [B], and when they pass, the serialization of the registry of [B] is
    set on the gist of [B] and handed to the store as one partial save.
    The notebook of [A] and its gist are as they were, then and ever
    after: the save that [A] triggered never runs. *)
Theorem saveGist_is_shared (serializeForGist : list (CellType * string) → string)
    (p : Process) (A B : inst) (a b : Notebook) (d1 : nat) :
  A ≠ B →
  instances p !! A = Some a →
  instances p !! B = Some b →
  rendering a = false →
  rendering b = false →
  d1 < 500 →
  let p1 := call A save p in
  let p2 := call B save (advance serializeForGist d1 p1) in
  let s := serializeForGist (records b) in
  let b' := if savable serializeForGist b
            then set_gist (mkGist (gist_isNew (gist b)) (gist_isOwner (gist b))
                             s (gist_saved (gist b) ++ [s])) b
            else b in
  p1 = mkProcess (instances p) (Some (A, clock p + 500)) (clock p) ∧
  p2 = mkProcess (instances p) (Some (B, clock p + d1 + 500)) (clock p + d1) ∧
  (∀ d2, d2 < 500 →
     advance serializeForGist d2 p2
       = mkProcess (instances p) (Some (B, clock p + d1 + 500))
           (clock p + d1 + d2)) ∧
  (∀ d2, 500 ≤ d2 →
     advance serializeForGist d2 p2
       = mkProcess (<[B := b']> (instances p)) None (clock p + d1 + d2) ∧
     instances (advance serializeForGist d2 p2) !! A = Some a ∧
     instances (advance serializeForGist d2 p2) !! B = Some b') ∧
  (∀ d2 d3, 500 ≤ d2 →
     advance serializeForGist d3 (advance serializeForGist d2 p2)
       = mkProcess (<[B := b']> (instances p)) None (clock p + d1 + d2 + d3)).
Proof.
  intros Hne Ha Hb Hra Hrb Hd1 p1 p2 s b'.
  assert (H1 : p1 = mkProcess (instances p) (Some (A, clock p + 500)) (clock p))
    by (by apply call_save_armed with (b := a)).
  assert (H2 : p2 = mkProcess (instances p) (Some (B, clock p + d1 + 500))
                      (clock p + d1)).
  { unfold p2. rewrite H1. unfold advance, expire. simpl.
    rewrite decide_False by lia.
    by rewrite (call_save_armed B b). }
  assert (H3 : ∀ d2, 500 ≤ d2 →
            advance serializeForGist d2 p2
            = mkProcess (<[B := b']> (instances p)) None (clock p + d1 + d2)).
  { intros d2 Hd2. rewrite H2. unfold advance, expire. simpl.
    rewrite decide_True by lia. unfold call. simpl. rewrite Hb.
    rewrite saveGist_body_eq. simpl. subst b' s.
    by destruct (savable serializeForGist b). }
  split_and!; [done | done | | |].
  - intros d2 Hd2. rewrite H2. unfold advance, expire. simpl.
    by rewrite decide_False by lia.
  - intros d2 Hd2. rewrite (H3 d2 Hd2). simpl. split_and!; [done | |].
    + by rewrite list_lookup_insert_ne.
    + apply list_lookup_insert_eq. by apply lookup_lt_Some in Hb.
  - intros d2 d3 Hd2. by rewrite (H3 d2 Hd2).
Qed.

Lemma saveGist_is_shared_witness :
  let x := notebook_of [mkView code "x" (Some 0) AtEnd] 1 in
  let y := notebook_of [mkView code "y" (Some 0) AtEnd] 1 in
  let y' := set_gist (mkGist false true "y" ["y"%string]) y in
  let p1 := call 0 save process_xy in
  let p2 := call 1 save (advance contents 300 p1) in
  p1 = mkProcess [x; y] (Some (0, 500)) 0 ∧
  p2 = mkProcess [x; y] (Some (1, 800)) 300 ∧
  (∀ d2, d2 < 500 →
     advance contents d2 p2 = mkProcess [x; y] (Some (1, 800)) (300 + d2)) ∧
  (∀ d2, 500 ≤ d2 →
     advance contents d2 p2 = mkProcess [x; y'] None (300 + d2) ∧
     instances (advance contents d2 p2) !! 0 = Some x ∧
     instances (advance contents d2 p2) !! 1 = Some y') ∧
  (∀ d2 d3, 500 ≤ d2 →
     advance contents d3 (advance contents d2 p2)
       = mkProcess [x; y'] None (300 + d2 + d3)).
Proof.
  apply (saveGist_is_shared contents process_xy 0 1
           (notebook_of [mkView code "x" (Some 0) AtEnd] 1)
           (notebook_of [mkView code "y" (Some 0) AtEnd] 1) 300).
  - lia.
  - reflexivity.
  - reflexivity.
  - reflexivity.
  - reflexivity.
  - lia.
Defined.

(** ** Moving a cell *)

Lemma well_formed_perm (b : Notebook) (l : list cid) :
  well_formed b → l ≡ₚ collection b →
  well_formed (set_collection l (set_childNodes l b)).
Proof.
  intros (Hnd & Hdom & Hlt) Hp. unfold well_formed. simpl. split_and!.
  - by rewrite Hp.
  - done.
  - by rewrite Hp.
Qed.

Lemma on_moveUp_swaps (e : Env) (v p : cid) (pre post : list cid) :
  well_formed (this e) →
  collection (this e) = pre ++ p :: v :: post →
  on_moveUp v e =
    Ok tt (mkEnv
      (set_collection (pre ++ v :: p :: post)
         (set_childNodes (pre ++ v :: p :: post)
            (set_effects (effects (this e) ++ [Focus v]) (this e))))
      (self e) (armed e) (now e)).
Proof.
  intros Hwf Hc.
  destruct e as [[uid r x u g coll dom ld vs eff] i d tm]. simpl in *.
  destruct Hwf as (Hnd & Hdom & Hlt). simpl in *. subst.
  assert (Hnd' : NoDup ((pre ++ [p]) ++ v :: post))
    by (by rewrite <- app_assoc).
  destruct (NoDup_middle _ _ _ Hnd') as [Hv _].
  destruct (NoDup_middle _ _ _ Hnd) as [Hp _].
  assert (Hprev : getPrev (pre ++ p :: v :: post) v = Some p).
  { replace (pre ++ p :: v :: post) with ((pre ++ [p]) ++ v :: post)
      by (by rewrite <- app_assoc).
    rewrite getPrev_middle by done. apply last_snoc. }
  assert (Hwo : without v (pre ++ p :: v :: post) = pre ++ p :: post).
  { replace (pre ++ p :: v :: post) with ((pre ++ [p]) ++ v :: post)
      by (by rewrite <- app_assoc).
    rewrite without_middle by done. by rewrite <- app_assoc. }
  unfold on_moveUp, previousSibling. munfold. simpl.
  rewrite Hprev. simpl. rewrite Hwo.
  rewrite insert_before_middle by done.
  rewrite sort_reconciles.
  2:{ intros c. rewrite !elem_of_app, !elem_of_cons. tauto. }
  unfold armed. simpl. by destruct r.
Qed.

Lemma on_moveDown_swaps (e : Env) (v n : cid) (pre post : list cid) :
  well_formed (this e) →
  collection (this e) = pre ++ v :: n :: post →
  on_moveDown v e =
    Ok tt (mkEnv
      (set_collection (pre ++ n :: v :: post)
         (set_childNodes (pre ++ n :: v :: post)
            (set_effects (effects (this e) ++ [Focus v]) (this e))))
      (self e) (armed e) (now e)).
Proof.
  intros Hwf Hc.
  destruct e as [[uid r x u g coll dom ld vs eff] i d tm]. simpl in *.
  destruct Hwf as (Hnd & Hdom & Hlt). simpl in *. subst.
  destruct (NoDup_middle _ _ _ Hnd) as [Hv Hv2].
  assert (Hn : n ∉ pre).
  { assert (Hnd' : NoDup ((pre ++ [v]) ++ n :: post))
      by (by rewrite <- app_assoc).
    destruct (NoDup_middle _ _ _ Hnd') as [Hn _].
    intros Hin. apply Hn. apply elem_of_app. by left. }
  unfold on_moveDown, nextSibling. munfold. simpl.
  rewrite getNext_middle by done. simpl.
  rewrite decide_True by (rewrite elem_of_app, !elem_of_cons; tauto).
  simpl. rewrite without_middle by done.
  rewrite insert_after_middle by done.
  rewrite sort_reconciles.
  2:{ intros c. rewrite !elem_of_app, !elem_of_cons. tauto. }
  unfold armed. simpl. by destruct r.
Qed.

Lemma trigger_moveUp (e : Env) (v : cid) :
  is_Some (views (this e) !! v) → trigger v Ev.moveUp e = on_moveUp v e.
Proof.
  intros [w Hw]. unfold trigger. by rewrite (bind_view_of _ _ _ _ Hw).
Qed.

Lemma trigger_moveDown (e : Env) (v : cid) :
  is_Some (views (this e) !! v) → trigger v Ev.moveDown e = on_moveDown v e.
Proof.
  intros [w Hw]. unfold trigger. by rewrite (bind_view_of _ _ _ _ Hw).
Qed.

Lemma swap_perm (p v : cid) (pre post : list cid) :
  pre ++ v :: p :: post ≡ₚ pre ++ p :: v :: post.
Proof. apply Permutation_app_head. apply perm_swap. Qed.

(** [moveUp] on a cell that has a cell before it exchanges the two, in the
    presentation and in the registry alike, focuses the moved cell, changes
    no cell, and raises the [sort] event that triggers a save. *)
Theorem moveUp_swaps_with_previous (e : Env) (v p : cid)
    (pre post : list cid) :
  well_formed (this e) →
  collection (this e) = pre ++ p :: v :: post →
  ∃ e',
    trigger v Ev.moveUp e = Ok tt e' ∧
    collection (this e') = pre ++ v :: p :: post ∧
    childNodes (this e') = pre ++ v :: p :: post ∧
    views (this e') = views (this e) ∧
    effects (this e') = effects (this e) ++ [Focus v] ∧
    saveGist e' = armed e ∧
    well_formed (this e').
Proof.
  intros Hwf Hc.
  assert (Hv : is_Some (views (this e) !! v)).
  { apply (well_formed_lookup _ _ Hwf). rewrite Hc.
    rewrite elem_of_app, !elem_of_cons. tauto. }
  eexists. split_and!.
  - rewrite (trigger_moveUp _ _ Hv). by apply on_moveUp_swaps.
  - done.
  - done.
  - done.
  - done.
  - done.
  - simpl. apply (well_formed_perm (set_effects _ (this e))); [done|].
    simpl. rewrite Hc. apply swap_perm.
Qed.

Lemma moveUp_swaps_with_previous_witness :
  ∃ e',
    trigger 2 Ev.moveUp env_abcd = Ok tt e' ∧
    collection (this e') = [0] ++ 2 :: 1 :: [3] ∧
    childNodes (this e') = [0] ++ 2 :: 1 :: [3] ∧
    views (this e') = views (this env_abcd) ∧
    effects (this e') = effects (this env_abcd) ++ [Focus 2] ∧
    saveGist e' = armed env_abcd ∧
    well_formed (this e').
Proof.
  apply (moveUp_swaps_with_previous env_abcd 2 1 [0] [3]).
  - apply (bool_decide_unpack _). vm_compute. exact I.
  - reflexivity.
Defined.

(** [moveDown] on a cell that has a cell after it exchanges the two, in the
    presentation and in the registry alike, focuses the moved cell, changes
    no cell, and raises the [sort] event that triggers a save. *)
Theorem moveDown_swaps_with_next (e : Env) (v n : cid) (pre post : list cid) :
  well_formed (this e) →
  collection (this e) = pre ++ v :: n :: post →
  ∃ e',
    trigger v Ev.moveDown e = Ok tt e' ∧
    collection (this e') = pre ++ n :: v :: post ∧
    childNodes (this e') = pre ++ n :: v :: post ∧
    views (this e') = views (this e) ∧
    effects (this e') = effects (this e) ++ [Focus v] ∧
    saveGist e' = armed e ∧
    well_formed (this e').
Proof.
  intros Hwf Hc.
  assert (Hv : is_Some (views (this e) !! v)).
  { apply (well_formed_lookup _ _ Hwf). rewrite Hc.
    rewrite elem_of_app, !elem_of_cons. tauto. }
  eexists. split_and!.
  - rewrite (trigger_moveDown _ _ Hv). by apply on_moveDown_swaps.
  - done.
  - done.
  - done.
  - done.
  - done.
  - simpl. apply (well_formed_perm (set_effects _ (this e))); [done|].
    simpl. rewrite Hc. symmetry. apply swap_perm.
Qed.

Lemma moveDown_swaps_with_next_witness :
  ∃ e',
    trigger 1 Ev.moveDown env_abcd = Ok tt e' ∧
    collection (this e') = [0] ++ 2 :: 1 :: [3] ∧
    childNodes (this e') = [0] ++ 2 :: 1 :: [3] ∧
    views (this e') = views (this env_abcd) ∧
    effects (this e') = effects (this env_abcd) ++ [Focus 1] ∧
    saveGist e' = armed env_abcd ∧
    well_formed (this e').
Proof.
  apply (moveDown_swaps_with_next env_abcd 1 2 [0] [3]).
  - apply (bool_decide_unpack _). vm_compute. exact I.
  - reflexivity.
Defined.

(** [moveUp] followed by [moveDown] on the same cell puts the registry and
    the presentation back in the order they had, with every cell as it
    was. *)
Theorem moveUp_then_moveDown (e : Env) (v p : cid) (pre post : list cid) :
  well_formed (this e) →
  collection (this e) = pre ++ p :: v :: post →
  ∃ e1 e2,
    trigger v Ev.moveUp e = Ok tt e1 ∧
    trigger v Ev.moveDown e1 = Ok tt e2 ∧
    collection (this e2) = collection (this e) ∧
    childNodes (this e2) = childNodes (this e) ∧
    views (this e2) = views (this e).
Proof.
  intros Hwf Hc.
  assert (Hv : is_Some (views (this e) !! v)).
  { apply (well_formed_lookup _ _ Hwf). rewrite Hc.
    rewrite elem_of_app, !elem_of_cons. tauto. }
  pose proof (on_moveUp_swaps e v p pre post Hwf Hc) as H1.
  set (e1 := mkEnv
      (set_collection (pre ++ v :: p :: post)
         (set_childNodes (pre ++ v :: p :: post)
            (set_effects (effects (this e) ++ [Focus v]) (this e))))
      (self e) (armed e) (now e)) in *.
  assert (Hwf1 : well_formed (this e1)).
  { simpl. apply (well_formed_perm (set_effects _ (this e))); [done|].
    simpl. rewrite Hc. apply swap_perm. }
  pose proof (on_moveDown_swaps e1 v p pre post Hwf1 eq_refl) as H2.
  eexists _, _. split_and!.
  - by rewrite (trigger_moveUp _ _ Hv).
  - by rewrite (trigger_moveDown e1 v Hv).
  - simpl. by rewrite Hc.
  - simpl. destruct Hwf as (_ & -> & _). by rewrite Hc.
  - done.
Qed.

Lemma moveUp_then_moveDown_witness :
  ∃ e1 e2,
    trigger 2 Ev.moveUp env_abcd = Ok tt e1 ∧
    trigger 2 Ev.moveDown e1 = Ok tt e2 ∧
    collection (this e2) = collection (this env_abcd) ∧
    childNodes (this e2) = childNodes (this env_abcd) ∧
    views (this e2) = views (this env_abcd).
Proof.
  apply (moveUp_then_moveDown env_abcd 2 1 [0] [3]).
  - apply (bool_decide_unpack _). vm_compute. exact I.
  - reflexivity.
Defined.

(** ** Replacing, splitting and removing cells *)

(** [appendTextView(view.el, s)] on a cell of a well-formed registry: the
    new cell is constructed, takes no id, and stands right after [view] in
    the presentation and in the registry. *)
Lemma appendTextView_after (e : Env) (view : cid) (s : option string)
    (pre post : list cid) :
  well_formed (this e) →
  collection (this e) = pre ++ view :: post →
  let n := length (views (this e)) in
  let b := this e in
  appendTextView (Some view) s e =
  Ok n (mkEnv
    (mkNotebook (_uniqueId b) (rendering b) (execution b) (user_id b)
      (gist b) (pre ++ view :: n :: post) (pre ++ view :: n :: post)
      (loading b)
      (views b ++ [mkView text (default EmptyString s) None AtEnd])
      (effects b))
    (self e) (armed e) (now e)).
Proof.
  intros Hwf Hc n b. subst b n.
  destruct e as [[uid r x u g coll dom ld vs eff] i d tm]. simpl in *.
  subst coll. destruct Hwf as (Hnd & Hdom & Hlt). simpl in *. subst dom.
  assert (Hn : length vs ∉ pre ++ view :: post).
  { intros Hin. apply (proj1 (Forall_forall _ _) Hlt) in Hin. lia. }
  destruct (NoDup_middle _ _ _ Hnd) as [Hpre Hpost].
  munfold. simpl. rewrite lookup_snoc. simpl.
  rewrite decide_True by set_solver. simpl.
  rewrite without_notin by done.
  rewrite insert_after_middle by done.
  rewrite sort_reconciles by set_solver.
  unfold armed. simpl.
  destruct s as [s|]; simpl.
  - destruct r; simpl; rewrite lookup_snoc; simpl;
      (destruct (decide (EmptyString = s)) as [<-|Hs]; simpl;
       [ by rewrite alter_snoc
       | rewrite alter_snoc; simpl;
         rewrite bool_decide_eq_true_2 by set_solver; simpl;
         by rewrite alter_snoc ]).
  - destruct r; simpl; by rewrite alter_snoc.
Qed.

(** The state after a cell was appended right after [view]. *)
Lemma well_formed_inserted (b : Notebook) (view : cid) (pre post : list cid)
    (w : View) (k : nat) :
  well_formed b →
  collection b = pre ++ view :: post →
  well_formed
    (mkNotebook k (rendering b) (execution b) (user_id b) (gist b)
       (pre ++ view :: length (views b) :: post)
       (pre ++ view :: length (views b) :: post)
       (loading b) (views b ++ [w]) (effects b)).
Proof.
  intros (Hnd & Hdom & Hlt) Hc. rewrite Hc in Hnd, Hlt.
  assert (Hn : length (views b) ∉ pre ++ view :: post).
  { intros Hin. apply (proj1 (Forall_forall _ _) Hlt) in Hin. lia. }
  unfold well_formed. simpl. split_and!.
  - by apply NoDup_insert_fresh.
  - done.
  - rewrite length_app. simpl.
    apply Forall_app in Hlt as [H1 H2]. apply Forall_cons in H2 as [H2 H3].
    apply Forall_app. split; [|repeat apply Forall_cons_2].
    + eapply Forall_impl; [exact H1|]. simpl. lia.
    + lia.
    + lia.
    + eapply Forall_impl; [exact H3|]. simpl. lia.
Qed.

(** [view.remove()] on a cell of a well-formed registry with two cells or
    more: the cell leaves the registry and the presentation, the focus goes
    to the cell after it, or else to the cell before it, with the cursor at
    its end, and no cell is constructed. *)
Lemma view_remove_spec (e : Env) (v : cid) (pre post : list cid) :
  well_formed (this e) →
  collection (this e) = pre ++ v :: post →
  pre ++ post ≠ [] →
  let target := default v (head (post ++ reverse pre)) in
  view_remove v e =
  Ok tt (mkEnv
    (set_childNodes (pre ++ post)
       (set_collection (pre ++ post)
          (set_views (alter (set_cursor AtEnd) target (views (this e)))
             (set_effects (effects (this e) ++ [Focus target]) (this e)))))
    (self e) (armed e) (now e)).
Proof.
  intros Hwf Hc Hne target. subst target.
  destruct e as [[uid r x u g coll dom ld vs eff] i d tm]. simpl in *.
  subst coll. destruct Hwf as (Hnd & Hdom & Hlt). simpl in *. subst dom.
  destruct (NoDup_middle _ _ _ Hnd) as [Hpre Hpost].
  unfold view_remove, on_remove. munfold. simpl.
  replace (length (pre ++ v :: post) <? 2) with false.
  2:{ symmetry. apply Nat.ltb_ge. rewrite length_app. simpl.
      destruct pre, post; simpl; try lia. done. }
  simpl. rewrite getNext_middle, getPrev_middle by done.
  assert (Hin : v ∈ pre ++ v :: post)
    by (rewrite elem_of_app, elem_of_cons; tauto).
  pose proof (without_middle v pre post Hnd) as Hwo.
  destruct post as [|n post]; simpl.
  - rewrite app_nil_r in *.
    destruct pre as [|p pre _] using rev_ind; [done|].
    rewrite last_snoc, reverse_snoc. simpl.
    rewrite decide_True by done. simpl. rewrite Hwo.
    unfold armed. simpl. destruct r; simpl; by rewrite ?Hwo.
  - rewrite decide_True by done. simpl. rewrite Hwo.
    unfold armed. simpl. destruct r; simpl; by rewrite ?Hwo.
Qed.

(** [view.remove()] on a cell of a registry that holds other cells takes
    the cell out of the registry and the presentation, constructs nothing,
    and moves the focus to the next cell, or to the previous one when the
    cell was the last, the cursor at the end. *)
Theorem remove_among_others (e : Env) (v : cid) (pre post : list cid) :
  well_formed (this e) →
  collection (this e) = pre ++ v :: post →
  pre ++ post ≠ [] →
  ∃ e',
    view_remove v e = Ok tt e' ∧
    collection (this e') = pre ++ post ∧
    childNodes (this e') = pre ++ post ∧
    length (views (this e')) = length (views (this e)) ∧
    cells (this e') = cells (this e) ∧
    effects (this e')
      = effects (this e) ++ [Focus (default v (head (post ++ reverse pre)))] ∧
    saveGist e' = armed e ∧
    well_formed (this e').
Proof.
  intros Hwf Hc Hne.
  pose proof (view_remove_spec e v pre post Hwf Hc Hne) as H. simpl in H.
  eexists. split_and!; [exact H | done | done | | | done | done |].
  - simpl. by rewrite length_alter.
  - unfold cells. simpl. by apply fmap_alter_same.
  - destruct Hwf as (Hnd & Hdom & Hlt). rewrite Hc in Hnd, Hlt.
    unfold well_formed. simpl. split_and!.
    + apply NoDup_app in Hnd as (H1 & H2 & H3).
      apply NoDup_cons in H3 as [_ H3]. apply NoDup_app. split_and!; [done| |done].
      intros x Hx Hx'. apply (H2 x Hx). by right.
    + done.
    + rewrite length_alter.
      apply Forall_app in Hlt as [H1 H2]. apply Forall_cons in H2 as [_ H2].
      by apply Forall_app.
Qed.

Lemma remove_among_others_witness :
  ∃ e',
    view_remove 3 env_abcd = Ok tt e' ∧
    collection (this e') = [0; 1; 2] ++ [] ∧
    childNodes (this e') = [0; 1; 2] ++ [] ∧
    length (views (this e')) = length (views (this env_abcd)) ∧
    cells (this e') = cells (this env_abcd) ∧
    effects (this e')
      = effects (this env_abcd) ++
        [Focus (default 3 (head ([] ++ reverse [0; 1; 2])))] ∧
    saveGist e' = armed env_abcd ∧
    well_formed (this e').
Proof.
  apply (remove_among_others env_abcd 3 [0; 1; 2] []).
  - apply (bool_decide_unpack _). vm_compute. exact I.
  - reflexivity.
  - discriminate.
Defined.

(** [switch] on a cell replaces it, at its place in the registry and in the
    presentation, by a new cell of the other variant with the same content
    and the same cursor; the identity of the old cell is gone from the
    registry, and a new code cell takes the next id. *)
Theorem switch_replaces_cell (e : Env) (v : cid) (w : View)
    (pre post : list cid) :
  well_formed (this e) →
  collection (this e) = pre ++ v :: post →
  views (this e) !! v = Some w →
  ∃ e',
    trigger v Ev.switch e = Ok tt e' ∧
    collection (this e') = pre ++ length (views (this e)) :: post ∧
    childNodes (this e') = pre ++ length (views (this e)) :: post ∧
    v ∉ collection (this e') ∧
    views (this e') =
      views (this e) ++
      [if decide (type w = text)
       then mkView code (value w) (Some (_uniqueId (this e))) (cursor w)
       else mkView text (value w) None (cursor w)] ∧
    well_formed (this e').
Proof.
  intros Hwf Hc Hw.
  assert (Hlen : v < length (views (this e))) by (by apply lookup_lt_Some in Hw).
  assert (Htr : trigger v Ev.switch e = on_switch v e).
  { unfold trigger. by rewrite (bind_view_of _ _ _ _ Hw). }
  rewrite Htr. unfold on_switch. rewrite (bind_view_of _ _ _ _ Hw).
  pose proof (appendCodeView_after e v (Some (value w)) pre post Hwf Hc) as HC.
  pose proof (appendTextView_after e v (Some (value w)) pre post Hwf Hc) as HT.
  simpl in HC, HT.
  pose proof Hwf as (Hnd & Hdom & Hlt).
  rewrite Hc in Hnd. destruct (NoDup_middle _ _ _ Hnd) as [Hpre Hpost].
  assert (Hnin : v ∉ pre ++ length (views (this e)) :: post).
  { rewrite elem_of_app, elem_of_cons. intros [?|[?|?]]; [done|lia|done]. }
  assert (Hwfin : ∀ k wn,
    well_formed
      (mkNotebook k (rendering (this e)) (execution (this e))
         (user_id (this e)) (gist (this e))
         (pre ++ length (views (this e)) :: post)
         (pre ++ length (views (this e)) :: post)
         (loading (this e)) (views (this e) ++ [wn]) (effects (this e)))).
  { intros k wn.
    pose proof (well_formed_inserted (this e) v pre post wn k Hwf Hc)
      as (H1 & _ & H3). simpl in H1, H3.
    unfold well_formed. simpl. split_and!; [|done|].
    - apply NoDup_app in H1 as (Ha & Hb & Hc').
      apply NoDup_cons in Hc' as [_ Hc']. apply NoDup_app. split_and!; [done| |done].
      intros y Hy Hy'. apply (Hb y Hy). by right.
    - apply Forall_app in H3 as [Ha Hb]. apply Forall_cons in Hb as [_ Hb].
      by apply Forall_app. }
  destruct (decide (type w = text)) as [Ht|Ht].
  - erewrite bind_Ok by exact HC.
    match goal with |- context [bind (getCursor v) _ ?e1] => set (E1 := e1) end.
    assert (Hwf1 : well_formed (this E1))
      by (by apply (well_formed_inserted (this e))).
    pose proof (view_remove_spec E1 v pre (length (views (this e)) :: post)
                  Hwf1 eq_refl) as Hrm.
    simpl in Hrm.
    assert (Hcur : getCursor v E1 = Ok (cursor w) E1).
    { unfold getCursor. rewrite (bind_view_of _ _ w); [done|].
      simpl. by rewrite lookup_app_l. }
    erewrite bind_Ok by exact Hcur.
    erewrite bind_Ok by (apply Hrm; by destruct pre).
    munfold. simpl. rewrite !alter_snoc. simpl.
    eexists. split_and!; [reflexivity | done | done | done | done |].
    simpl. apply (Hwfin (S (_uniqueId (this e)))).
  - erewrite bind_Ok by exact HT.
    match goal with |- context [bind (getCursor v) _ ?e1] => set (E1 := e1) end.
    assert (Hwf1 : well_formed (this E1))
      by (by apply (well_formed_inserted (this e))).
    pose proof (view_remove_spec E1 v pre (length (views (this e)) :: post)
                  Hwf1 eq_refl) as Hrm.
    simpl in Hrm.
    assert (Hcur : getCursor v E1 = Ok (cursor w) E1).
    { unfold getCursor. rewrite (bind_view_of _ _ w); [done|].
      simpl. by rewrite lookup_app_l. }
    erewrite bind_Ok by exact Hcur.
    erewrite bind_Ok by (apply Hrm; by destruct pre).
    munfold. simpl. rewrite !alter_snoc. simpl.
    eexists. split_and!; [reflexivity | done | done | done | done |].
    simpl. apply (Hwfin (_uniqueId (this e))).
Qed.

Lemma switch_replaces_cell_witness :
  ∃ e',
    trigger 1 Ev.switch env_abcd = Ok tt e' ∧
    collection (this e') = [0] ++ length (views (this env_abcd)) :: [2; 3] ∧
    childNodes (this e') = [0] ++ length (views (this env_abcd)) :: [2; 3] ∧
    1 ∉ collection (this e') ∧
    views (this e') =
      views (this env_abcd) ++
      [if decide (type (mkView text "b" None AtEnd) = text)
       then mkView code (value (mkView text "b" None AtEnd))
              (Some (_uniqueId (this env_abcd)))
              (cursor (mkView text "b" None AtEnd))
       else mkView text (value (mkView text "b" None AtEnd)) None
              (cursor (mkView text "b" None AtEnd))] ∧
    well_formed (this e').
Proof.
  apply (switch_replaces_cell env_abcd 1 (mkView text "b" None AtEnd)
           [0] [2; 3]).
  - apply (bool_decide_unpack _). vm_compute. exact I.
  - reflexivity.
  - reflexivity.
Defined.

(** ** Appending at the end *)

(** [appendCodeView(null, s)] on a well-formed notebook: the new code cell
    takes the next id and the last place of the presentation and of the
    registry; nothing is sorted, and only a content to set raises a
    [change]. *)
Lemma appendCodeView_at_end (e : Env) (s : option string) :
  well_formed (this e) →
  let n := length (views (this e)) in
  let b := this e in
  appendCodeView None s e =
  Ok n (mkEnv
    (mkNotebook (S (_uniqueId b)) (rendering b) (execution b) (user_id b)
      (gist b) (collection b ++ [n]) (collection b ++ [n]) (loading b)
      (views b ++ [mkView code (default EmptyString s) (Some (_uniqueId b)) AtEnd])
      (effects b))
    (self e)
    (if decide (default EmptyString s = EmptyString) then saveGist e
     else armed e)
    (now e)).
Proof.
  intros Hwf n b. subst b n.
  destruct e as [[uid r x u g coll dom ld vs eff] i d tm]. simpl in *.
  destruct Hwf as (Hnd & Hdom & Hlt). simpl in *. subst dom.
  assert (Hn : length vs ∉ coll).
  { intros Hin. apply (proj1 (Forall_forall _ _) Hlt) in Hin. lia. }
  munfold. simpl. rewrite lookup_snoc. simpl.
  rewrite alter_snoc. simpl.
  rewrite without_notin by done.
  unfold armed. simpl.
  destruct s as [s|]; simpl.
  - rewrite lookup_snoc; simpl.
    destruct (decide (EmptyString = s)) as [<-|Hs]; simpl.
    + by rewrite alter_snoc.
    + rewrite decide_False by done.
      rewrite alter_snoc; simpl.
      rewrite bool_decide_eq_true_2 by set_solver; simpl.
      destruct r; simpl; by rewrite alter_snoc.
  - by rewrite alter_snoc.
Qed.

Lemma appendTextView_at_end (e : Env) (s : option string) :
  well_formed (this e) →
  let n := length (views (this e)) in
  let b := this e in
  appendTextView None s e =
  Ok n (mkEnv
    (mkNotebook (_uniqueId b) (rendering b) (execution b) (user_id b)
      (gist b) (collection b ++ [n]) (collection b ++ [n]) (loading b)
      (views b ++ [mkView text (default EmptyString s) None AtEnd])
      (effects b))
    (self e)
    (if decide (default EmptyString s = EmptyString) then saveGist e
     else armed e)
    (now e)).
Proof.
  intros Hwf n b. subst b n.
  destruct e as [[uid r x u g coll dom ld vs eff] i d tm]. simpl in *.
  destruct Hwf as (Hnd & Hdom & Hlt). simpl in *. subst dom.
  assert (Hn : length vs ∉ coll).
  { intros Hin. apply (proj1 (Forall_forall _ _) Hlt) in Hin. lia. }
  munfold. simpl. rewrite lookup_snoc. simpl.
  rewrite without_notin by done.
  unfold armed. simpl.
  destruct s as [s|]; simpl.
  - rewrite lookup_snoc; simpl.
    destruct (decide (EmptyString = s)) as [<-|Hs]; simpl.
    + by rewrite alter_snoc.
    + rewrite decide_False by done.
      rewrite alter_snoc; simpl.
      rewrite bool_decide_eq_true_2 by set_solver; simpl.
      destruct r; simpl; by rewrite alter_snoc.
  - by rewrite alter_snoc.
Qed.

Lemma well_formed_appended (b : Notebook) (w : View) (k : nat) :
  well_formed b →
  well_formed
    (mkNotebook k (rendering b) (execution b) (user_id b) (gist b)
       (collection b ++ [length (views b)])
       (collection b ++ [length (views b)])
       (loading b) (views b ++ [w]) (effects b)).
Proof.
  intros (Hnd & Hdom & Hlt).
  assert (Hn : length (views b) ∉ collection b).
  { intros Hin. apply (proj1 (Forall_forall _ _) Hlt) in Hin. lia. }
  unfold well_formed. simpl. split_and!.
  - apply NoDup_app. split_and!; [done| |apply NoDup_singleton].
    intros x Hx ->%list_elem_of_singleton. done.
  - done.
  - rewrite length_app. simpl. apply Forall_app. split.
    + eapply Forall_impl; [exact Hlt|]. simpl. lia.
    + apply Forall_singleton. lia.
Qed.

(** ** The [execute] and [text] events of a code cell *)

(** The [execute] event of a code cell outside a run: on the last cell it
    appends an empty code cell at the end and focuses it; on another cell
    it moves the cursor of the next cell to its start and focuses it,
    constructing nothing. *)
Theorem execute_event_outside_run (e : Env) (v : cid) (w : View)
    (pre post : list cid) :
  well_formed (this e) →
  collection (this e) = pre ++ v :: post →
  views (this e) !! v = Some w →
  type w = code →
  execution (this e) = false →
  ∃ e',
    trigger v Ev.execute e = Ok tt e' ∧
    match post with
    | [] =>
        collection (this e') = collection (this e) ++ [length (views (this e))] ∧
        childNodes (this e') = collection (this e') ∧
        views (this e') =
          views (this e) ++
          [mkView code EmptyString (Some (_uniqueId (this e))) AtEnd] ∧
        effects (this e')
          = effects (this e) ++ [Focus (length (views (this e)))] ∧
        saveGist e' = saveGist e
    | n :: _ =>
        collection (this e') = collection (this e) ∧
        childNodes (this e') = childNodes (this e) ∧
        views (this e') = alter (set_cursor AtStart) n (views (this e)) ∧
        effects (this e') = effects (this e) ++ [Focus n] ∧
        saveGist e' = saveGist e
    end.
Proof.
  intros Hwf Hc Hw Ht Hx.
  assert (Htr : trigger v Ev.execute e = on_execute v e).
  { unfold trigger. by rewrite (bind_view_of _ _ _ _ Hw), Ht. }
  rewrite Htr. unfold on_execute.
  pose proof Hwf as (Hnd & Hdom & Hlt).
  rewrite Hc in Hnd. destruct (NoDup_middle _ _ _ Hnd) as [Hpre Hpost].
  assert (H1 : ∀ k : bool → M unit,
            (let* x := gets execution in k x) e = k false e).
  { intros k. unfold gets, bind. by rewrite Hx. }
  rewrite H1.
  assert (H2 : ∀ k : list cid → M unit,
            (let* nodes := gets childNodes in k nodes) e
            = k (pre ++ v :: post) e).
  { intros k. unfold gets, bind. by rewrite Hdom, Hc. }
  rewrite H2.
  destruct post as [|n post].
  - rewrite last_snoc, bool_decide_eq_true_2 by done.
    erewrite bind_Ok by (by apply appendCodeView_at_end).
    simpl. eexists. split_and!; [reflexivity|done..].
  - rewrite bool_decide_eq_false_2.
    2:{ intros Hl. rewrite last_app in Hl. simpl in Hl.
        rewrite last_cons in Hl.
        destruct (last post) as [y|] eqn:Hy;
          injection Hl as ->; apply Hpost.
        - apply elem_of_cons. right. by apply last_Some_elem_of.
        - by left. }
    rewrite bind_getNextView, Hc, getNext_middle by done.
    munfold. simpl. eexists. split_and!; [reflexivity|done..].
Qed.

Lemma execute_event_outside_run_witness :
  ∃ e',
    trigger 3 Ev.execute env_abcd = Ok tt e' ∧
    collection (this e')
      = collection (this env_abcd) ++ [length (views (this env_abcd))] ∧
    childNodes (this e') = collection (this e') ∧
    views (this e') =
      views (this env_abcd) ++
      [mkView code EmptyString (Some (_uniqueId (this env_abcd))) AtEnd] ∧
    effects (this e')
      = effects (this env_abcd) ++ [Focus (length (views (this env_abcd)))] ∧
    saveGist e' = saveGist env_abcd.
Proof.
  apply (execute_event_outside_run env_abcd 3
           (mkView code "d" (Some 2) AtEnd) [0; 1; 2] []).
  - apply (bool_decide_unpack _). vm_compute. exact I.
  - reflexivity.
  - reflexivity.
  - reflexivity.
  - reflexivity.
Defined.

(** The [text] event of a code cell constructs a text cell with the
    payload right after it and focuses it; the code cell is removed from
    the registry and the presentation when it is empty, and stays where it
    is when it has content. *)
Theorem text_event_on_code_cell (e : Env) (v : cid) (w : View)
    (payload : string) (pre post : list cid) :
  well_formed (this e) →
  collection (this e) = pre ++ v :: post →
  views (this e) !! v = Some w →
  type w = code →
  ∃ e' wn,
    trigger v (Ev.text payload) e = Ok tt e' ∧
    views (this e') !! length (views (this e)) = Some wn ∧
    type wn = text ∧ value wn = payload ∧ _uniqueCellId wn = None ∧
    _uniqueId (this e') = _uniqueId (this e) ∧
    last (focuses (effects (this e'))) = Some (length (views (this e))) ∧
    collection (this e') =
      (if nonempty (value w)
       then pre ++ v :: length (views (this e)) :: post
       else pre ++ length (views (this e)) :: post) ∧
    childNodes (this e') = collection (this e').
Proof.
  intros Hwf Hc Hw Ht.
  assert (Hlen : v < length (views (this e))) by (by apply lookup_lt_Some in Hw).
  assert (Htr : trigger v (Ev.text payload) e = on_text v payload e).
  { unfold trigger. by rewrite (bind_view_of _ _ _ _ Hw), Ht. }
  rewrite Htr. unfold on_text.
  pose proof (appendTextView_after e v (Some payload) pre post Hwf Hc) as HT.
  simpl in HT. erewrite bind_Ok by exact HT.
  match goal with |- context [bind (focus _) _ ?e1] => set (E1 := e1) end.
  assert (Hwf1 : well_formed (this E1))
    by (by apply (well_formed_inserted (this e))).
  assert (Hfoc : ∀ (t : list Effect) (c : cid),
            last (focuses (t ++ [Focus c])) = Some c).
  { intros t c. unfold focuses. rewrite omap_app. simpl. apply last_snoc. }
  set (E2 := set_this (set_effects (effects (this E1) ++
                         [Focus (length (views (this e)))]) (this E1)) E1).
  assert (Hstep : ∀ k : M unit,
            (focus (length (views (this e))) >> k) E1 = k E2) by done.
  rewrite Hstep.
  assert (Hval : getValue v E2 = Ok (value w) E2).
  { unfold getValue. rewrite (bind_view_of _ _ w); [done|].
    simpl. by rewrite lookup_app_l. }
  erewrite bind_Ok by exact Hval.
  destruct (nonempty (value w)) eqn:Hne.
  - eexists _, _.
    split_and!; [reflexivity | simpl; apply lookup_snoc | done | done | done
                | done | simpl; apply Hfoc | done | done].
  - assert (Hwf2 : well_formed (this E2)) by done.
    pose proof (view_remove_spec E2 v pre (length (views (this e)) :: post)
                  Hwf2 eq_refl) as Hrm.
    simpl in Hrm. rewrite Hrm by (by destruct pre).
    eexists _, _. split_and!.
    1: reflexivity.
    1: simpl; rewrite alter_snoc; apply lookup_snoc.
    all: try done.
    simpl. apply Hfoc.
Qed.

Lemma text_event_on_code_cell_witness :
  ∃ e' wn,
    trigger 2 (Ev.text "prose") env_abcd = Ok tt e' ∧
    views (this e') !! length (views (this env_abcd)) = Some wn ∧
    type wn = text ∧ value wn = "prose"%string ∧ _uniqueCellId wn = None ∧
    _uniqueId (this e') = _uniqueId (this env_abcd) ∧
    last (focuses (effects (this e')))
      = Some (length (views (this env_abcd))) ∧
    collection (this e') =
      (if nonempty (value (mkView code "c" (Some 1) AtEnd))
       then [0; 1] ++ 2 :: length (views (this env_abcd)) :: [3]
       else [0; 1] ++ length (views (this env_abcd)) :: [3]) ∧
    childNodes (this e') = collection (this e').
Proof.
  apply (text_event_on_code_cell env_abcd 2
           (mkView code "c" (Some 1) AtEnd) "prose" [0; 1] [3]).
  - apply (bool_decide_unpack _). vm_compute. exact I.
  - reflexivity.
  - reflexivity.
  - reflexivity.
Defined.

(** ** A run over text cells *)

Lemma visit_text_only (cs : list (CellType * string)) (cb : bool)
    (rest : list cid) :
  Forall (λ c, is_code cs c = false) rest →
  visit cs cb rest
    = ((Focus <$> rest) ++ (if cb then [Completion] else []), Finished).
Proof.
  induction rest as [|c rest IH]; intros Hall; [done|].
  apply Forall_cons in Hall as [Hc Hall]. simpl. unfold is_code in Hc.
  rewrite (IH Hall). by destruct (cs !! c) as [[[|] s]|].
Qed.

(** [execute(cb)] on a registry without code cells completes before it
    returns: every cell is focused in order, nothing is handed to the
    sandbox, [cb] is called once when it was passed, and the flag of the
    run is cleared. *)
Theorem execute_without_code_cells (e : Env) (cb : bool) :
  well_formed (this e) →
  collection (this e) ≠ [] →
  Forall (λ c, is_code (cells (this e)) c = false) (collection (this e)) →
  ∃ e',
    execute cb e = Ok Finished e' ∧
    effects (this e') =
      effects (this e) ++ (Focus <$> collection (this e)) ++
      (if cb then [Completion] else []) ∧
    executed (effects (this e')) = executed (effects (this e)) ∧
    execution (this e') = false ∧
    same_registry (this e) (this e').
Proof.
  intros Hwf Hne Hall.
  destruct (execute_spec cb e Hwf Hne) as (e' & He' & Heff & Hreg & Hx).
  rewrite (visit_text_only _ _ _ Hall) in He', Heff, Hx. simpl in *.
  exists e'. split_and!; [done..| |done|done].
  rewrite Heff. unfold executed. rewrite !omap_app.
  assert (H1 : ∀ l : list cid,
            omap (λ x, match x with
                       | SandboxExecute v s => Some (v, s)
                       | _ => None
                       end) (Focus <$> l) = []).
  { induction l as [|x l IH]; [done|]. simpl. apply IH. }
  rewrite H1. destruct cb; simpl; by rewrite ?app_nil_r.
Qed.

Lemma execute_without_code_cells_witness :
  ∃ e',
    execute true env_note = Ok Finished e' ∧
    effects (this e') =
      effects (this env_note) ++ (Focus <$> collection (this env_note)) ++
      (if true then [Completion] else []) ∧
    executed (effects (this e')) = executed (effects (this env_note)) ∧
    execution (this e') = false ∧
    same_registry (this env_note) (this e').
Proof.
  apply (execute_without_code_cells env_note true).
  - apply (bool_decide_unpack _). vm_compute. exact I.
  - discriminate.
  - repeat constructor.
Defined.

(** ** Moving the focus *)

(** [navigateUp] focuses the cell before, the cursor at its end, and
    [navigateDown] the cell after, the cursor at its start; on the first
    and on the last cell they change nothing.  Neither touches the
    registry or triggers a save. *)
Theorem navigate_moves_focus (e : Env) (v : cid) (pre post : list cid) :
  well_formed (this e) →
  collection (this e) = pre ++ v :: post →
  trigger v Ev.navigateUp e =
    Ok tt (match last pre with
           | Some p =>
               set_this
                 (set_views (alter (set_cursor AtEnd) p (views (this e)))
                    (set_effects (effects (this e) ++ [Focus p]) (this e))) e
           | None => e
           end) ∧
  trigger v Ev.navigateDown e =
    Ok tt (match head post with
           | Some n =>
               set_this
                 (set_views (alter (set_cursor AtStart) n (views (this e)))
                    (set_effects (effects (this e) ++ [Focus n]) (this e))) e
           | None => e
           end).
Proof.
  intros Hwf Hc.
  assert (Hv : is_Some (views (this e) !! v)).
  { apply (well_formed_lookup _ _ Hwf). rewrite Hc.
    rewrite elem_of_app, elem_of_cons. tauto. }
  destruct Hv as [w Hw].
  pose proof Hwf as (Hnd & _ & _). rewrite Hc in Hnd.
  destruct (NoDup_middle _ _ _ Hnd) as [Hpre _].
  split.
  - unfold trigger. rewrite (bind_view_of _ _ _ _ Hw).
    unfold on_navigateUp, getPrevView, gets, bind at 1. simpl.
    rewrite Hc, getPrev_middle by done.
    by destruct (last pre).
  - unfold trigger. rewrite (bind_view_of _ _ _ _ Hw).
    unfold on_navigateDown. rewrite bind_getNextView.
    rewrite Hc, getNext_middle by done.
    by destruct (head post).
Qed.

Lemma navigate_moves_focus_witness :
  trigger 0 Ev.navigateUp env_abcd =
    Ok tt (match last [] with
           | Some p =>
               set_this
                 (set_views (alter (set_cursor AtEnd) p (views (this env_abcd)))
                    (set_effects (effects (this env_abcd) ++ [Focus p])
                       (this env_abcd))) env_abcd
           | None => env_abcd
           end) ∧
  trigger 0 Ev.navigateDown env_abcd =
    Ok tt (match head [1; 2; 3] with
           | Some n =>
               set_this
                 (set_views (alter (set_cursor AtStart) n (views (this env_abcd)))
                    (set_effects (effects (this env_abcd) ++ [Focus n])
                       (this env_abcd))) env_abcd
           | None => env_abcd
           end).
Proof.
  apply (navigate_moves_focus env_abcd 0 [] [1; 2; 3]).
  - apply (bool_decide_unpack _). vm_compute. exact I.
  - reflexivity.
Defined.

(** ** Browsing forward through the code cells *)

Lemma browseDown_scan_spec (e : Env) (view : cid) (post : list cid) :
  ∀ (m : cid) (pre : list cid) (fuel : nat),
    collection (this e) = pre ++ m :: post →
    well_formed (this e) →
    length post < fuel →
    browseDown_scan fuel view (Some m) e =
      match head (filter (λ c, is_code (cells (this e)) c = true) post) with
      | Some c => (browseToCell view c >> moveCursorToEnd view true) e
      | None => Ok tt e
      end.
Proof.
  induction post as [|n post IH]; intros m pre fuel Hc Hwf Hfuel;
    (destruct fuel as [|fuel]; [simpl in Hfuel; lia|]);
    pose proof Hwf as (Hnd & _ & _); rewrite Hc in Hnd;
    destruct (NoDup_middle _ _ _ Hnd) as [Hm _].
  - simpl. unfold gets, bind. simpl. rewrite Hc.
    by rewrite getNext_middle.
  - assert (Hin : n ∈ collection (this e)).
    { rewrite Hc. rewrite elem_of_app, !elem_of_cons. tauto. }
    destruct (well_formed_lookup _ _ Hwf Hin) as [w Hw].
    simpl. unfold gets, bind at 1. simpl. rewrite Hc.
    rewrite getNext_middle by done. simpl.
    rewrite (bind_view_of _ _ _ _ Hw).
    rewrite filter_cons, (is_code_lookup _ _ _ Hw).
    destruct (decide (type w = code)) as [Hcode|Hcode].
    + rewrite decide_True by (by apply bool_decide_eq_true_2). done.
    + rewrite decide_False
        by (rewrite bool_decide_eq_false_2 by done; discriminate).
      apply (IH n (pre ++ [m]) fuel); [|done|simpl in Hfuel; lia].
      by rewrite Hc, <- app_assoc.
Qed.

Lemma browse_shows_start (e : Env) (view m : cid) (wv wm : View) :
  views (this e) !! view = Some wv →
  views (this e) !! m = Some wm →
  ∃ e', (browseToCell view m >> moveCursorToEnd view true) e = Ok tt e' ∧
        views (this e') !! view =
          Some (set_cursor AtStart (set_value (value wm) wv)) ∧
        collection (this e') = collection (this e).
Proof.
  intros Hv Hm. unfold browseToCell. munfold. simpl. rewrite Hm. simpl.
  rewrite Hv. simpl.
  destruct (decide (value wv = value wm)) as [Heq|Hne]; simpl.
  - eexists. split_and!; [reflexivity | | done]. simpl.
    rewrite list_lookup_alter_eq, Hv. simpl. f_equal.
    destruct wv. simpl in *. by subst.
  - destruct (bool_decide (view ∈ collection (this e))); simpl;
      [destruct (rendering (this e)); simpl|];
      (eexists; split_and!; [reflexivity | | done]; simpl;
       by rewrite !list_lookup_alter_eq, Hv).
Qed.

(** [browseDown] with the identity of a cell of the registry as reference
    scans forward through the registry from the reference, over the cells
    that are not code, to the first code cell: the view then shows the
    content of that cell, the cursor at its start, and the registry is as
    it was; without a code cell after the reference the loop ends and
    nothing changes. *)
Theorem browseDown_scans_forward (e : Env) (view ref : cid) (wv : View) :
  well_formed (this e) →
  ref ∈ collection (this e) →
  views (this e) !! view = Some wv →
  type wv = code →
  match scan_forward (cells (this e)) (collection (this e)) ref with
  | Some m =>
      ∃ e' wm,
        views (this e) !! m = Some wm ∧ type wm = code ∧
        trigger view (Ev.browseDown ref) e = Ok tt e' ∧
        views (this e') !! view
          = Some (set_cursor AtStart (set_value (value wm) wv)) ∧
        collection (this e') = collection (this e)
  | None => trigger view (Ev.browseDown ref) e = Ok tt e
  end.
Proof.
  intros Hwf Href Hv Ht.
  assert (Htr : trigger view (Ev.browseDown ref) e = on_browseDown view ref e).
  { unfold trigger. by rewrite (bind_view_of _ _ _ _ Hv), Ht. }
  assert (Hon : on_browseDown view ref e =
            browseDown_scan (S (length (collection (this e)))) view
              (get (collection (this e)) ref) e) by reflexivity.
  rewrite Htr, Hon. unfold get.
  destruct (decide (ref ∈ collection (this e))) as [Hin|Hnin].
  - destruct (indexOf_elem _ _ Hin) as (pre & post & Hc & Hpre).
    rewrite (browseDown_scan_spec e view post ref pre);
      [|done|done|rewrite Hc, length_app; simpl; lia].
    assert (Hscan : scan_forward (cells (this e)) (collection (this e)) ref =
              head (filter (λ c, is_code (cells (this e)) c = true) post)).
    { assert (Hdrop : drop (S (length pre)) (pre ++ ref :: post) = post).
      { replace (pre ++ ref :: post) with ((pre ++ [ref]) ++ post)
          by (by rewrite <- app_assoc).
        apply drop_app_length'. rewrite length_app. simpl. lia. }
      unfold scan_forward. rewrite Hc, (indexOf_middle _ _ _ Hpre). simpl.
      by rewrite Hdrop. }
    rewrite Hscan.
    destruct (head (filter _ post)) as [m|] eqn:Hh; [|done].
    assert (Hcode : is_code (cells (this e)) m = true).
    { apply head_Some_elem_of in Hh.
      by apply list_elem_of_filter in Hh as [? _]. }
    assert (Hmin : m ∈ collection (this e)).
    { apply head_Some_elem_of in Hh.
      apply list_elem_of_filter in Hh as [_ Hr].
      rewrite Hc, elem_of_app, elem_of_cons. tauto. }
    destruct (well_formed_lookup _ _ Hwf Hmin) as [wm Hwm].
    rewrite (is_code_lookup _ _ _ Hwm) in Hcode.
    apply bool_decide_eq_true_1 in Hcode.
    destruct (browse_shows_start e view m wv wm Hv Hwm)
      as (e' & He' & Hv' & Hc').
    exists e', wm. done.
  - done.
Qed.

Lemma browseDown_scans_forward_witness :
  ∃ e',
    trigger 0 (Ev.browseDown 0) env_abcd = Ok tt e' ∧
    views (this e') !! 0 = Some (mkView code "c" (Some 0) AtStart) ∧
    collection (this e') = [0; 1; 2; 3].
Proof.
  pose proof (browseDown_scans_forward env_abcd 0 0
                (mkView code "a" (Some 0) AtEnd)) as H.
  simpl in H.
  destruct H as (e' & wm & Hwm & _ & He' & Hv & Hc).
  - apply (bool_decide_unpack _). vm_compute. exact I.
  - apply (bool_decide_unpack _). vm_compute. exact I.
  - reflexivity.
  - reflexivity.
  - exists e'. injection Hwm as <-. done.
Defined.

(** ** Cloning a cell *)

(** The [clone] event appends the clone right after its source, in the
    presentation and in the registry, focuses it and gives it the cursor of
    the source; a clone of a code cell takes the next id, and the sort that
    follows the insertion triggers a save. *)
Theorem clone_appends_after_source (e : Env) (v : cid) (w : View)
    (pre post : list cid) :
  well_formed (this e) →
  collection (this e) = pre ++ v :: post →
  views (this e) !! v = Some w →
  ∃ e',
    act (Clone v) e = Ok tt e' ∧
    collection (this e') = pre ++ v :: length (views (this e)) :: post ∧
    childNodes (this e') = pre ++ v :: length (views (this e)) :: post ∧
    views (this e') =
      views (this e) ++
      [mkView (type w) (value w)
         (if decide (type w = code) then Some (_uniqueId (this e)) else None)
         (cursor w)] ∧
    _uniqueId (this e') =
      (if decide (type w = code) then S (_uniqueId (this e))
       else _uniqueId (this e)) ∧
    effects (this e') = effects (this e) ++ [Focus (length (views (this e)))] ∧
    saveGist e' = armed e ∧
    well_formed (this e').
Proof.
  intros Hwf Hc Hw.
  assert (Hlen : v < length (views (this e))) by (by apply lookup_lt_Some in Hw).
  pose proof (well_formed_inserted (this e) v pre post) as Hwfi.
  specialize (Hwfi
    (mkView (type w) (value w)
       (if decide (type w = code) then Some (_uniqueId (this e)) else None)
       (cursor w))
    (if decide (type w = code) then S (_uniqueId (this e))
     else _uniqueId (this e)) Hwf Hc).
  destruct e as [[uid r x u g coll dom ld vs eff] i d tm]. simpl in *.
  subst coll. destruct Hwf as (Hnd & Hdom & Hlt). simpl in *. subst dom.
  assert (Hn : length vs ∉ pre ++ v :: post).
  { intros Hin. apply (proj1 (Forall_forall _ _) Hlt) in Hin. lia. }
  destruct (NoDup_middle _ _ _ Hnd) as [Hpre Hpost].
  assert (Hin : v ∈ pre ++ v :: post)
    by (rewrite elem_of_app, elem_of_cons; tauto).
  unfold clone_view, trigger, on_clone. munfold. simpl. rewrite Hw. simpl.
  rewrite alter_snoc. simpl.
  rewrite lookup_app_l by done. rewrite Hw. simpl.
  destruct (type w) eqn:Ht; simpl;
    rewrite lookup_snoc; simpl;
    rewrite ?alter_snoc; simpl;
    rewrite decide_True by done; simpl;
    rewrite without_notin by done;
    rewrite insert_after_middle by done;
    rewrite sort_reconciles by set_solver;
    unfold armed; simpl;
    (destruct r; simpl;
     rewrite lookup_app_l by done; rewrite Hw; simpl;
     rewrite !alter_snoc; simpl;
     (eexists; split_and!; [reflexivity | done..])).
Qed.

Lemma clone_appends_after_source_witness :
  ∃ e',
    act (Clone 2) env_abcd = Ok tt e' ∧
    collection (this e')
      = [0; 1] ++ 2 :: length (views (this env_abcd)) :: [3] ∧
    childNodes (this e')
      = [0; 1] ++ 2 :: length (views (this env_abcd)) :: [3] ∧
    views (this e') =
      views (this env_abcd) ++
      [mkView (type (mkView code "c" (Some 1) AtEnd))
         (value (mkView code "c" (Some 1) AtEnd))
         (if decide (type (mkView code "c" (Some 1) AtEnd) = code)
          then Some (_uniqueId (this env_abcd)) else None)
         (cursor (mkView code "c" (Some 1) AtEnd))] ∧
    _uniqueId (this e') =
      (if decide (type (mkView code "c" (Some 1) AtEnd) = code)
       then S (_uniqueId (this env_abcd))
       else _uniqueId (this env_abcd)) ∧
    effects (this e')
      = effects (this env_abcd) ++ [Focus (length (views (this env_abcd)))] ∧
    saveGist e' = armed env_abcd ∧
    well_formed (this e').
Proof.
  apply (clone_appends_after_source env_abcd 2
           (mkView code "c" (Some 1) AtEnd) [0; 1] [3]).
  - apply (bool_decide_unpack _). vm_compute. exact I.
  - reflexivity.
  - reflexivity.
Defined.

(** ** Rendering a gist *)

Lemma rendered_length uid rs : length (rendered uid rs) = length rs.
Proof.
  revert uid. induction rs as [|[t s] rs IH]; intros uid; [done|].
  simpl. destruct (decide (t = text)); simpl; by rewrite IH.
Qed.

Lemma rendered_cells uid rs :
  (λ w, (type w, value w)) <$> rendered uid rs = rs.
Proof.
  revert uid. induction rs as [|[t s] rs IH]; intros uid; [done|].
  simpl. destruct (decide (t = text)) as [->|Ht]; simpl; rewrite IH; [done|].
  by destruct t.
Qed.

Section Render.

Variable deserializeFromGist : string → list (CellType * string).

(** The loop of [renderFromGist] on a well-formed notebook that is
    rendering: the records become cells at the end of the registry and of
    the presentation, in order, and no save is triggered. *)
Lemma append_cells_spec (rs : list (CellType * string)) :
  ∀ e : Env,
    well_formed (this e) →
    rendering (this e) = true →
    append_cells rs e =
    Ok tt (mkEnv
      (mkNotebook (_uniqueId (this e) + code_count rs) true
         (execution (this e)) (user_id (this e)) (gist (this e))
         (collection (this e) ++ seq (length (views (this e))) (length rs))
         (collection (this e) ++ seq (length (views (this e))) (length rs))
         (loading (this e))
         (views (this e) ++ rendered (_uniqueId (this e)) rs)
         (effects (this e)))
      (self e) (saveGist e) (now e)).
Proof.
  induction rs as [|[t s] rs IH]; intros e Hwf Hr.
  - simpl. unfold ret, code_count. simpl.
    destruct e as [[uid r x u g coll dom ld vs eff] i d tm]. simpl in *.
    destruct Hwf as (_ & Hdom & _). simpl in *. subst.
    by rewrite Nat.add_0_r, !app_nil_r.
  - cbn [append_cells rendered]. unfold code_count.
    destruct (decide (t = text)) as [->|Ht].
    + pose proof (appendTextView_at_end e (Some s) Hwf) as HA. simpl in HA.
      erewrite bind_Ok by exact HA.
      match goal with |- append_cells rs ?e1 = _ => set (E1 := e1) end.
      assert (Hwf1 : well_formed (this E1)) by (by apply well_formed_appended).
      rewrite (IH E1 Hwf1 Hr).
      simpl. unfold armed. rewrite Hr.
      rewrite filter_cons_False by done.
      rewrite length_app. simpl.
      rewrite <- !app_assoc. simpl.
      replace (length (views (this e)) + 1) with (S (length (views (this e))))
        by lia.
      by destruct (decide (s = EmptyString)).
    + assert (t = code) as -> by (by destruct t).
      pose proof (appendCodeView_at_end e (Some s) Hwf) as HA. simpl in HA.
      erewrite bind_Ok by exact HA.
      match goal with |- append_cells rs ?e1 = _ => set (E1 := e1) end.
      assert (Hwf1 : well_formed (this E1)) by (by apply well_formed_appended).
      rewrite (IH E1 Hwf1 Hr).
      simpl. unfold armed. rewrite Hr.
      rewrite length_app. simpl.
      rewrite <- !app_assoc. simpl.
      replace (length (views (this e)) + 1) with (S (length (views (this e))))
        by lia.
      replace (S (_uniqueId (this e) + code_count rs))
        with (_uniqueId (this e) +
              S (length (filter (λ r : CellType * string, r.1 = code) rs)))
        by (unfold code_count; lia).
      by destruct (decide (s = EmptyString)).
Qed.

Lemma last_seq (a n : nat) : last (seq a (S n)) = Some (a + n).
Proof. rewrite seq_S. apply last_snoc. Qed.

Lemma renderFromGist_fresh (user : option string) (g : Gist) (x ld : bool)
    (i : inst) (d : Debounced) (t : nat) :
  let vs := rendered_or_default (deserializeFromGist (gist_notebook g)) in
  renderFromGist deserializeFromGist
    (mkEnv (mkNotebook 0 true x user g [] [] ld [] []) i d t) =
  Ok tt (mkEnv
    (mkNotebook (length (filter (λ w, type w = code) vs)) true x user g
       (seq 0 (length vs)) (seq 0 (length vs)) ld vs
       [Focus (length vs - 1)]) i d t).
Proof.
  intros vs. subst vs. unfold renderFromGist.
  set (E0 := mkEnv (mkNotebook 0 true x user g [] [] ld [] []) i d t).
  assert (Hwf0 : well_formed (this E0)).
  { split_and!; [apply NoDup_nil_2 | done | done]. }
  assert (Hg : ∀ k : Gist → M unit, (let* g0 := gets gist in k g0) E0 = k g E0)
    by done.
  rewrite Hg.
  erewrite bind_Ok by (by apply append_cells_spec).
  simpl.
  assert (Hcount : ∀ uid rs,
            length (filter (λ w, type w = code) (rendered uid rs))
            = code_count rs).
  { intros uid rs. revert uid. unfold code_count.
    induction rs as [|[t0 s0] rs IH]; intros uid; [done|]. simpl.
    destruct (decide (t0 = text)) as [->|Ht].
    - rewrite filter_cons_False by done.
      by rewrite (filter_cons_False (λ r, r.1 = code)) by done.
    - rewrite filter_cons_True by done.
      rewrite (filter_cons_True (λ r, r.1 = code)) by (by destruct t0).
      simpl. by rewrite IH. }
  destruct (deserializeFromGist (gist_notebook g)) as [|r rs] eqn:Hrs.
  - simpl. munfold. simpl. done.
  - unfold rendered_or_default.
    rewrite Hcount, rendered_length.
    cbn [length seq]. munfold.
    cbn [this childNodes collection app].
    rewrite last_cons.
    destruct (length rs) as [|k] eqn:Hk.
    + simpl. done.
    + rewrite last_seq. simpl. done.
Qed.

Lemma records_all (b : Notebook) :
  collection b = seq 0 (length (views b)) → records b = cells b.
Proof.
  intros Hc. unfold records, cells. rewrite Hc.
  assert (H : ∀ (pre vs : list View),
            omap (λ c, (λ w, (type w, value w)) <$> (pre ++ vs) !! c)
              (seq (length pre) (length vs))
            = (λ w, (type w, value w)) <$> vs).
  { intros pre vs. revert pre.
    induction vs as [|w vs IH]; intros pre; [done|].
    simpl. rewrite lookup_app_r by lia. rewrite Nat.sub_diag. simpl.
    f_equal. specialize (IH (pre ++ [w])).
    rewrite <- app_assoc, length_app in IH. simpl in IH.
    by rewrite Nat.add_1_r in IH. }
  apply (H [] (views b)).
Qed.

Lemma rendered_or_default_cells (rs : list (CellType * string)) :
  (λ w, (type w, value w)) <$> rendered_or_default rs =
  match rs with
  | [] => [(code, EmptyString)]
  | _ => rs
  end.
Proof.
  destruct rs as [|r rs]; [done|]. unfold rendered_or_default.
  apply rendered_cells.
Qed.

(** [render()] on the notebook of a new gist, as [initialize] made it,
    returns with the notebook rendered: the cells are those of the
    deserialized notebook of the gist, in order, or one empty code cell when
    there are none; registry and presentation agree; the last cell is
    focused; the flag of the rendering is cleared; and no save was
    triggered on the way. *)
Theorem render_new_gist (user : option string) (g : Gist) (i : inst)
    (d : Debounced) (t : nat) :
  gist_isNew g = true →
  ∃ e',
    render deserializeFromGist (mkEnv (initialize user g) i d t)
      = Ok Rendered e' ∧
    records (this e') =
      match deserializeFromGist (gist_notebook g) with
      | [] => [(code, EmptyString)]
      | rs => rs
      end ∧
    collection (this e') = seq 0 (length (views (this e'))) ∧
    childNodes (this e') = collection (this e') ∧
    rendering (this e') = false ∧
    loading (this e') = false ∧
    gist (this e') = g ∧
    saveGist e' = d ∧
    effects (this e') =
      [Focus (length (views (this e')) - 1); Navigate EmptyString false].
Proof.
  intros Hnew.
  pose proof (renderFromGist_fresh user g false true i d t) as Hr.
  simpl in Hr.
  assert (Hrun : render deserializeFromGist (mkEnv (initialize user g) i d t) =
    (renderFromGist deserializeFromGist >> doneRendering >>
     emit (Navigate EmptyString false) >> ret Rendered)
      (mkEnv (mkNotebook 0 true false user g [] [] true [] []) i d t)).
  { unfold render, updateUser. munfold. simpl. by rewrite Hnew. }
  rewrite Hrun. erewrite bind_Ok by exact Hr.
  unfold doneRendering. munfold. simpl.
  eexists. split_and!; [reflexivity | | done..].
  rewrite records_all by done. unfold cells. simpl.
  rewrite rendered_or_default_cells.
  by destruct (deserializeFromGist (gist_notebook g)).
Qed.

(** [render()] on the notebook of a gist that exists, as [initialize] made
    it, returns with the fetch under way and the flag of the rendering set.  The error callback
    clears the flag, constructs nothing and navigates away; the success
    callback renders the cells of the fetched notebook as for a new gist,
    with one empty code cell when there are none, and clears the flag.  No
    save is triggered on either way. *)
Theorem render_existing_gist (user : option string) (g : Gist) (i : inst)
    (d : Debounced) (t : nat) (owner : bool) (content : string) :
  gist_isNew g = false →
  ∃ e1 e2 e3,
    render deserializeFromGist (mkEnv (initialize user g) i d t)
      = Ok Fetching e1 ∧
    rendering (this e1) = true ∧ views (this e1) = [] ∧ saveGist e1 = d ∧
    fetch_error e1 = Ok tt e2 ∧
    rendering (this e2) = false ∧ views (this e2) = [] ∧
    effects (this e2) = [Navigate EmptyString true] ∧ saveGist e2 = d ∧
    fetch_success deserializeFromGist owner content e1 = Ok tt e3 ∧
    records (this e3) =
      match deserializeFromGist content with
      | [] => [(code, EmptyString)]
      | rs => rs
      end ∧
    collection (this e3) = seq 0 (length (views (this e3))) ∧
    childNodes (this e3) = collection (this e3) ∧
    rendering (this e3) = false ∧
    gist (this e3) = mkGist false owner content (gist_saved g) ∧
    saveGist e3 = d ∧
    effects (this e3) = [Focus (length (views (this e3)) - 1)].
Proof.
  intros Hnew.
  pose proof (renderFromGist_fresh user
                (mkGist false owner content (gist_saved g)) false true i d t)
    as Hr.
  simpl in Hr.
  assert (H1 : render deserializeFromGist (mkEnv (initialize user g) i d t) =
            Ok Fetching
              (mkEnv (mkNotebook 0 true false user g [] [] true [] []) i d t)).
  { unfold render. munfold. simpl. by rewrite Hnew. }
  assert (H3 : fetch_success deserializeFromGist owner content
                 (mkEnv (mkNotebook 0 true false user g [] [] true [] []) i d t) =
    (renderFromGist deserializeFromGist >> doneRendering)
      (mkEnv (mkNotebook 0 true false user
                (mkGist false owner content (gist_saved g)) [] [] true [] [])
         i d t)).
  { unfold fetch_success, updateUser. munfold. simpl. done. }
  eexists _, _, _.
  split_and!; [exact H1 | done | done | done | reflexivity | done | done
              | done | done | | | | | | | |].
  - rewrite H3. erewrite bind_Ok by exact Hr.
    unfold doneRendering. munfold. simpl. reflexivity.
  - rewrite records_all by done. unfold cells. simpl.
    rewrite rendered_or_default_cells.
    by destruct (deserializeFromGist content).
  - done.
  - done.
  - done.
  - done.
  - done.
  - done.
Qed.

End Render.

Lemma render_new_gist_witness :
  ∃ e',
    render example_deserialize
      (mkEnv (initialize None (mkGist true false "1+1" [])) 0 None 0)
      = Ok Rendered e' ∧
    records (this e') =
      match example_deserialize (gist_notebook (mkGist true false "1+1" [])) with
      | [] => [(code, EmptyString)]
      | rs => rs
      end ∧
    collection (this e') = seq 0 (length (views (this e'))) ∧
    childNodes (this e') = collection (this e') ∧
    rendering (this e') = false ∧
    loading (this e') = false ∧
    gist (this e') = mkGist true false "1+1" [] ∧
    saveGist e' = None ∧
    effects (this e') =
      [Focus (length (views (this e')) - 1); Navigate EmptyString false].
Proof.
  apply (render_new_gist example_deserialize None
           (mkGist true false "1+1" []) 0 None 0).
  reflexivity.
Defined.

Lemma render_existing_gist_witness :
  ∃ e1 e2 e3,
    render example_deserialize
      (mkEnv (initialize (Some "octocat"%string) example_gist) 0 None 0)
      = Ok Fetching e1 ∧
    rendering (this e1) = true ∧ views (this e1) = [] ∧ saveGist e1 = None ∧
    fetch_error e1 = Ok tt e2 ∧
    rendering (this e2) = false ∧ views (this e2) = [] ∧
    effects (this e2) = [Navigate EmptyString true] ∧ saveGist e2 = None ∧
    fetch_success example_deserialize true "2+2" e1 = Ok tt e3 ∧
    records (this e3) =
      match example_deserialize "2+2" with
      | [] => [(code, EmptyString)]
      | rs => rs
      end ∧
    collection (this e3) = seq 0 (length (views (this e3))) ∧
    childNodes (this e3) = collection (this e3) ∧
    rendering (this e3) = false ∧
    gist (this e3) = mkGist false true "2+2" (gist_saved example_gist) ∧
    saveGist e3 = None ∧
    effects (this e3) = [Focus (length (views (this e3)) - 1)].
Proof.
  apply (render_existing_gist example_deserialize (Some "octocat"%string)
           example_gist 0 None 0 true "2+2").
  reflexivity.
Defined.

(** ** What the debounced function saves *)

(** One save trigger on a notebook that is not rendering, and then time:
    before 500 ms nothing happens; at 500 ms the function runs, once; for
    the owner of a notebook that is not blank the gist then holds the
    serialized registry and one partial save was handed to the store, and
    for anybody else, or a blank notebook, nothing is saved at all; and
    however long one waits after that, nothing more is saved. *)
Theorem one_trigger_one_save
    (serializeForGist : list (CellType * string) → string)
    (p : Process) (i : inst) (b : Notebook) :
  instances p !! i = Some b →
  rendering b = false →
  let s := serializeForGist (records b) in
  let b' := if savable serializeForGist b
            then set_gist (mkGist (gist_isNew (gist b)) (gist_isOwner (gist b))
                             s (gist_saved (gist b) ++ [s])) b
            else b in
  (∀ dt, dt < 500 →
     instances (advance serializeForGist dt (call i save p)) = instances p) ∧
  (∀ dt, 500 ≤ dt →
     advance serializeForGist dt (call i save p)
       = mkProcess (<[i := b']> (instances p)) None (clock p + dt)) ∧
  (∀ dt dt', 500 ≤ dt →
     instances (advance serializeForGist dt'
                  (advance serializeForGist dt (call i save p)))
       = <[i := b']> (instances p)).
Proof.
  intros Hb Hr s b'.
  rewrite (call_save_armed i b p Hb Hr).
  assert (H2 : ∀ dt, 500 ≤ dt →
     advance serializeForGist dt
       (mkProcess (instances p) (Some (i, clock p + 500)) (clock p))
       = mkProcess (<[i := b']> (instances p)) None (clock p + dt)).
  { intros dt Hdt. unfold advance, expire. simpl.
    rewrite decide_True by lia. unfold call. simpl. rewrite Hb.
    rewrite saveGist_body_eq. simpl. subst b' s.
    by destruct (savable serializeForGist b). }
  split_and!.
  - intros dt Hdt. unfold advance, expire. simpl.
    by rewrite decide_False by lia.
  - done.
  - intros dt dt' Hdt. by rewrite H2.
Qed.

Lemma one_trigger_one_save_witness :
  let b := notebook_of [mkView code "x" (Some 0) AtEnd] 1 in
  let s := contents (records b) in
  let b' := if savable contents b
            then set_gist (mkGist (gist_isNew (gist b)) (gist_isOwner (gist b))
                             s (gist_saved (gist b) ++ [s])) b
            else b in
  (∀ dt, dt < 500 →
     instances (advance contents dt (call 0 save process_x))
       = instances process_x) ∧
  (∀ dt, 500 ≤ dt →
     advance contents dt (call 0 save process_x)
       = mkProcess (<[0 := b']> (instances process_x)) None
           (clock process_x + dt)) ∧
  (∀ dt dt', 500 ≤ dt →
     instances (advance contents dt'
                  (advance contents dt (call 0 save process_x)))
       = <[0 := b']> (instances process_x)).
Proof.
  apply (one_trigger_one_save contents process_x 0
           (notebook_of [mkView code "x" (Some 0) AtEnd] 1)).
  - reflexivity.
  - reflexivity.
Defined.

(** A notebook nobody is signed in to, or that the user does not own, or
    whose serialization is blank, is not handed to the store by a save
    trigger: however long one waits after the trigger, and whether the
    notebook is rendering or not, the notebook and its gist are as they
    were. *)
Theorem unsavable_never_saved
    (serializeForGist : list (CellType * string) → string)
    (p : Process) (i : inst) (b : Notebook) (dt : nat) :
  instances p !! i = Some b →
  savable serializeForGist b = false →
  instances (advance serializeForGist dt (call i save p)) !! i = Some b.
Proof.
  intros Hb Hs.
  assert (Hfire : ∀ (q : Process) (j : inst),
            instances q !! i = Some b →
            instances (call j (saveGist_body serializeForGist) q) !! i
              = Some b).
  { intros q j Hq. unfold call.
    destruct (decide (j = i)) as [->|Hne].
    - rewrite Hq. rewrite saveGist_body_eq. simpl. rewrite Hs. simpl.
      by rewrite list_insert_id.
    - destruct (instances q !! j); [|done]. simpl.
      by rewrite list_lookup_insert_ne. }
  destruct (rendering b) eqn:Hr.
  - assert (Hcall : call i save p = p).
    { unfold call, save, gets, bind. rewrite Hb. simpl. rewrite Hr. simpl.
      rewrite list_insert_id by done. by destruct p. }
    rewrite Hcall. unfold advance, expire. simpl.
    destruct (timer p) as [[j dl]|]; [|done].
    destruct (decide (dl ≤ clock p + dt)); [|done].
    by apply Hfire.
  - rewrite (call_save_armed i b p Hb Hr). unfold advance, expire. simpl.
    destruct (decide (clock p + 500 ≤ clock p + dt)); [|done].
    by apply Hfire.
Qed.

Lemma unsavable_never_saved_witness :
  savable contents (notebook_of [mkView code white (Some 0) AtEnd] 1) = false ∧
  instances (advance contents 700 (call 0 save process_white)) !! 0
  = Some (notebook_of [mkView code white (Some 0) AtEnd] 1).
Proof.
  split; [vm_compute; reflexivity|].
  apply (unsavable_never_saved contents process_white 0
           (notebook_of [mkView code white (Some 0) AtEnd] 1) 700).
  - reflexivity.
  - vm_compute. reflexivity.
Defined.

(** ** The registry follows the presentation *)

Lemma tame_alter (f : View → View) (v : cid) :
  tame (λ b, set_views (alter f v (views b)) b).
Proof. intros b. split_and!; [done..|]. simpl. apply length_alter. Qed.

Ltac tame_tac :=
  first [ apply tame_alter | intros ?; repeat split; reflexivity ].

Lemma wf_modify (f : Notebook → Notebook) : tame f → keeps wf (modify f).
Proof.
  intros Hf. apply keeps_modify. intros e (Hnd & Hdom & Hlt).
  destruct (Hf (this e)) as (Hc & Hd & Hl).
  unfold wf, well_formed. simpl. rewrite Hc, Hd, Hl. done.
Qed.

Lemma fresh_modify (v : cid) (f : Notebook → Notebook) :
  tame f → keeps (fresh v) (modify f).
Proof.
  intros Hf. apply keeps_modify. intros e ((Hnd & Hdom & Hlt) & Hv & Hl).
  destruct (Hf (this e)) as (Hc & Hd & Hl').
  unfold fresh, wf, well_formed. simpl. rewrite Hc, Hd, Hl'. done.
Qed.

Lemma wf_save : keeps wf save.
Proof.
  intros e He. unfold save, gets, bind, when, saveGist_call.
  destruct (rendering (this e)); simpl; done.
Qed.

Lemma bind_assoc {A B C} (m : M A) (k : A → M B) (k' : B → M C) (e : Env) :
  bind (bind m k) k' e = bind m (λ a, bind (k a) k') e.
Proof. unfold bind. by destruct (m e). Qed.

Lemma wf_new_view (t : CellType) : hoare wf (new_view t) fresh wf.
Proof.
  intros e (Hnd & Hdom & Hlt). unfold new_view. munfold. simpl.
  unfold fresh, wf, well_formed. simpl. rewrite length_app. simpl.
  split_and!; [done | done | | | lia].
  - eapply Forall_impl; [exact Hlt|]. simpl. lia.
  - intros Hin. apply (proj1 (Forall_forall _ _) Hlt) in Hin. lia.
Qed.

(** [appendView] on a view that is not in the registry yet: whether it is
    put at the end, after a cell of the presentation, or whether the
    insertion throws for want of a parent, the notebook it leaves is well
    formed. *)
Lemma wf_appendView (v : cid) (before : option cid) :
  hoare (fresh v) (appendView v before) (λ _, wf) wf.
Proof.
  intros e ((Hnd & Hdom & Hlt) & Hv & Hl).
  destruct (lookup_lt_is_Some_2 _ _ Hl) as [w Hw].
  unfold appendView. rewrite (bind_view_of _ _ _ _ Hw). clear Hw.
  destruct e as [[uid r x u g coll dom ld vs eff] i d tm]. simpl in *.
  subst dom.
  assert (Hins : ∀ b, b ∈ coll →
            NoDup (insert_after v b coll) ∧
            (∀ c, c ∈ insert_after v b coll ↔ c ∈ coll ++ [v])).
  { intros b Hb. destruct (indexOf_elem _ _ Hb) as (pre & post & -> & Hpre).
    rewrite insert_after_middle by done. split.
    - by apply NoDup_insert_fresh.
    - set_solver. }
  assert (Hfin : ∀ (l : list cid) k ws ef sl,
            NoDup l → (∀ c, c ∈ l ↔ c ∈ coll ++ [v]) →
            length ws = length vs →
            wf (mkEnv (mkNotebook k r x u g l l ld ws ef) i sl tm)).
  { intros l k ws ef sl Hl1 Hl2 Hws. unfold wf, well_formed. simpl.
    split_and!; [done..|]. apply Forall_forall. intros c Hc. rewrite Hws.
    apply Hl2 in Hc. apply elem_of_app in Hc as [Hc|Hc].
    - by apply (proj1 (Forall_forall _ _) Hlt).
    - apply list_elem_of_singleton in Hc. by subst. }
  assert (Hnd' : NoDup (coll ++ [v])).
  { apply NoDup_app. split_and!; [done| |apply NoDup_singleton].
    intros c Hc ->%list_elem_of_singleton. done. }
  destruct (decide (type w = code)) as [Ht|Ht]; simpl;
    (destruct before as [b|];
     [ destruct (decide (b ∈ coll)) as [Hb|Hb];
       [ destruct (Hins b Hb) as [Hi1 Hi2];
         munfold; simpl; rewrite decide_True by done; simpl;
         rewrite without_notin by done;
         rewrite sort_reconciles by done;
         destruct r; simpl; apply Hfin; (done || (simpl; by rewrite ?length_alter))
       | munfold; simpl; rewrite decide_False by done; simpl;
         unfold wf, well_formed; simpl;
         rewrite ?length_alter; done ]
     | munfold; simpl; rewrite without_notin by done;
       apply Hfin; (done || (simpl; by rewrite ?length_alter)) ]).
Qed.

Lemma keeps_wf_weaken {A} (v : cid) (m : M A) :
  keeps (fresh v) m → hoare (fresh v) m (λ _, fresh v) wf.
Proof.
  intros Hm e He. specialize (Hm e He).
  destruct (m e) as [a e'|err e']; [done|]. by destruct Hm.
Qed.

Ltac wf_leaf :=
  first [ apply wf_save | apply wf_modify; tame_tac ].

Lemma wf_emit x : keeps wf (emit x).
Proof. unfold emit. keeps_tac wf_leaf. Qed.

Lemma wf_focus v : keeps wf (focus v).
Proof. apply wf_emit. Qed.

Lemma wf_view_of v : keeps wf (view_of v).
Proof. unfold view_of. keeps_tac wf_leaf. Qed.

Lemma wf_moveCursorToEnd v s : keeps wf (moveCursorToEnd v s).
Proof. unfold moveCursorToEnd, update_view. keeps_tac wf_leaf. Qed.

Lemma wf_setCursor v c : keeps wf (setCursor v c).
Proof. unfold setCursor, update_view. keeps_tac wf_leaf. Qed.

Lemma wf_getCursor v : keeps wf (getCursor v).
Proof. unfold getCursor, view_of. keeps_tac wf_leaf. Qed.

Lemma wf_getValue v : keeps wf (getValue v).
Proof. unfold getValue, view_of. keeps_tac wf_leaf. Qed.

Lemma wf_model_set v s : keeps wf (model_set v s).
Proof. unfold model_set, view_of, update_view. keeps_tac wf_leaf. Qed.

Lemma wf_setValue v s : keeps wf (setValue v s).
Proof. destruct s; [apply wf_model_set | apply keeps_ret]. Qed.

Lemma wf_browseToCell v m : keeps wf (browseToCell v m).
Proof.
  unfold browseToCell. apply keeps_bind; [apply wf_view_of|].
  intros w. apply wf_setValue.
Qed.

Lemma wf_getNextView v : keeps wf (getNextView v).
Proof. unfold getNextView. keeps_tac wf_leaf. Qed.

Lemma wf_getPrevView v : keeps wf (getPrevView v).
Proof. unfold getPrevView. keeps_tac wf_leaf. Qed.

Lemma wf_collection_sort : keeps wf collection_sort.
Proof.
  unfold collection_sort. apply keeps_bind; [|intros _; apply wf_save].
  apply keeps_modify. intros e (Hnd & Hdom & Hlt).
  unfold wf, well_formed. simpl. rewrite Hdom, sort_same. done.
Qed.

Lemma wf_appendCodeView el s : keeps wf (appendCodeView el s).
Proof.
  unfold appendCodeView.
  apply hoare_bind with (Q := fresh); [apply wf_new_view|]. intros v.
  apply hoare_bind with (Q := λ _, wf); [apply wf_appendView|]. intros _.
  keeps_tac ltac:(first [apply wf_setValue | apply wf_moveCursorToEnd]).
Qed.

Lemma wf_appendTextView el s : keeps wf (appendTextView el s).
Proof.
  unfold appendTextView.
  apply hoare_bind with (Q := fresh); [apply wf_new_view|]. intros v.
  apply hoare_bind with (Q := λ _, wf); [apply wf_appendView|]. intros _.
  keeps_tac ltac:(first [apply wf_setValue | apply wf_moveCursorToEnd]).
Qed.

Lemma wf_collection_remove v :
  hoare wf (collection_remove v) (λ _, removed v) wf.
Proof.
  intros e (Hnd & Hdom & Hlt). unfold collection_remove. munfold. simpl.
  destruct (decide (v ∈ collection (this e))) as [Hin|Hnin]; simpl.
  - assert (Hrem : ∀ sl, removed v
              (set_saveGist sl
                 (set_this (set_collection (without v (collection (this e)))
                              (this e)) e))).
    { intros sl. unfold removed. simpl. rewrite Hdom. split_and!; [|done|].
      - by apply NoDup_filter.
      - apply Forall_forall. intros c [_ Hc]%list_elem_of_filter.
        by apply (proj1 (Forall_forall _ _) Hlt). }
    destruct (rendering (this e)); simpl; [|apply Hrem].
    specialize (Hrem (saveGist e)). by destruct e.
  - unfold removed. rewrite Hdom, without_notin by done. done.
Qed.

Lemma wf_on_remove v : hoare wf (on_remove v) (λ _, removed v) wf.
Proof.
  unfold on_remove.
  apply hoare_bind with (Q := λ _, wf); [apply keeps_gets|]. intros nodes.
  apply hoare_bind with (Q := λ _, wf).
  { destruct (length nodes <? 2); [|apply keeps_ret].
    apply keeps_bind; [apply wf_appendCodeView | intros; apply keeps_ret]. }
  intros _.
  apply hoare_bind with (Q := λ _, wf); [apply wf_getNextView|].
  intros nextView.
  apply hoare_bind with (Q := λ _, wf); [apply wf_getPrevView|].
  intros prevView.
  apply hoare_bind with (Q := λ _, wf); [|intros _; apply wf_collection_remove].
  destruct nextView, prevView;
    keeps_tac ltac:(first [apply wf_focus | apply wf_moveCursorToEnd]).
Qed.

(** The removal of a view: once the handler of [remove] has taken the
    model out of the registry, the view leaves the presentation. *)
Lemma wf_view_remove v : keeps wf (view_remove v).
Proof.
  unfold view_remove.
  apply hoare_bind with (Q := λ _, removed v); [apply wf_on_remove|].
  intros _ e (Hnd & Hdom & Hlt). unfold modify, wf, well_formed. simpl.
  by rewrite <- Hdom.
Qed.

Lemma getPrev_Some_inv (l : list cid) (v p : cid) :
  getPrev l v = Some p → ∃ pre post, l = pre ++ p :: v :: post.
Proof.
  unfold getPrev. destruct (indexOf v l) as [[|i]|] eqn:Hi; [done| |done].
  intros Hp. apply indexOf_Some in Hi as [Hv _].
  exists (take i l), (drop (S (S i)) l).
  rewrite <- (take_drop_middle l (S i) v Hv) at 1.
  rewrite (take_S_r l i p Hp), <- app_assoc. done.
Qed.

Lemma getNext_Some_inv (l : list cid) (v n : cid) :
  getNext l v = Some n → ∃ pre post, l = pre ++ v :: n :: post.
Proof.
  unfold getNext. destruct (indexOf v l) as [i|] eqn:Hi; [|done]. simpl.
  intros Hn. apply indexOf_Some in Hi as [Hv _].
  exists (take i l), (drop (S (S i)) l).
  rewrite <- (take_drop_middle l i v Hv) at 1. f_equal. f_equal.
  by apply drop_S.
Qed.

Lemma wf_on_moveUp v : keeps wf (on_moveUp v).
Proof.
  intros e Hwf. pose proof Hwf as (Hnd & Hdom & Hlt).
  destruct (previousSibling (childNodes (this e)) v) as [p|] eqn:Hp.
  - unfold previousSibling in Hp. rewrite Hdom in Hp.
    destruct (getPrev_Some_inv _ _ _ Hp) as (pre & post & Hc).
    rewrite (on_moveUp_swaps e v p pre post Hwf Hc).
    unfold wf. simpl.
    apply (well_formed_perm (set_effects _ (this e))); [done|].
    simpl. rewrite Hc. apply swap_perm.
  - unfold on_moveUp, gets, bind. simpl. by rewrite Hp.
Qed.

Lemma wf_on_moveDown v : keeps wf (on_moveDown v).
Proof.
  intros e Hwf. pose proof Hwf as (Hnd & Hdom & Hlt).
  destruct (nextSibling (childNodes (this e)) v) as [n|] eqn:Hn.
  - unfold nextSibling in Hn. rewrite Hdom in Hn.
    destruct (getNext_Some_inv _ _ _ Hn) as (pre & post & Hc).
    rewrite (on_moveDown_swaps e v n pre post Hwf Hc).
    unfold wf. simpl.
    apply (well_formed_perm (set_effects _ (this e))); [done|].
    simpl. rewrite Hc. symmetry. apply swap_perm.
  - unfold on_moveDown, gets, bind. simpl. by rewrite Hn.
Qed.

Lemma wf_clone v :
  keeps wf (let* c := clone_view v in trigger v (Ev.clone c)).
Proof.
  apply hoare_bind with (Q := fresh).
  { unfold clone_view.
    apply hoare_bind with (Q := λ _, wf); [apply wf_view_of|]. intros w.
    apply hoare_bind with (Q := fresh); [apply wf_new_view|]. intros c.
    apply hoare_bind with (Q := λ _, fresh c).
    - apply keeps_wf_weaken. unfold update_view.
      apply fresh_modify. tame_tac.
    - intros _. apply hoare_ret. done. }
  intros c. unfold trigger.
  apply hoare_bind with (Q := λ _, fresh c).
  { apply keeps_wf_weaken. unfold view_of.
    keeps_tac ltac:(apply fresh_modify; tame_tac). }
  intros w.
  assert (Hon : hoare (fresh c) (on_clone v c) (λ _, wf) wf).
  { unfold on_clone.
    apply hoare_bind with (Q := λ _, wf); [apply wf_appendView|]. intros _.
    keeps_tac ltac:(first [apply wf_getCursor | apply wf_focus
                          | apply wf_setCursor]). }
  by destruct (type w).
Qed.

Local Ltac wf_leaf2 :=
  first [ wf_leaf | apply wf_focus | apply wf_moveCursorToEnd
        | apply wf_getNextView | apply wf_getPrevView
        | apply wf_collection_sort
        | apply wf_getCursor | apply wf_setCursor
        | apply wf_getValue | apply wf_view_of
        | apply wf_browseToCell | apply wf_emit
        | apply wf_model_set
        | apply wf_appendCodeView | apply wf_appendTextView
        | apply wf_view_remove ].

Lemma wf_on_navigateUp v : keeps wf (on_navigateUp v).
Proof. unfold on_navigateUp. keeps_tac wf_leaf2. Qed.

Lemma wf_on_navigateDown v : keeps wf (on_navigateDown v).
Proof. unfold on_navigateDown. keeps_tac wf_leaf2. Qed.

Lemma wf_on_switch v : keeps wf (on_switch v).
Proof.
  unfold on_switch. apply keeps_bind; [apply wf_view_of|]. intros w.
  apply keeps_bind; [destruct (decide (type w = text)); wf_leaf2|]. intros n.
  keeps_tac wf_leaf2.
Qed.

Lemma wf_on_code v s : keeps wf (on_code v s).
Proof. unfold on_code. keeps_tac wf_leaf2. Qed.

Lemma wf_on_execute v : keeps wf (on_execute v).
Proof. unfold on_execute. keeps_tac wf_leaf2. Qed.

Lemma wf_on_text v s : keeps wf (on_text v s).
Proof. unfold on_text. keeps_tac wf_leaf2. Qed.

Lemma wf_browseUp_scan fuel v m : keeps wf (browseUp_scan fuel v m).
Proof.
  revert m. induction fuel as [|fuel IH]; intros m; simpl.
  - apply keeps_throw.
  - keeps_tac ltac:(first [apply IH | wf_leaf2]).
Qed.

Lemma wf_browseDown_scan fuel v m : keeps wf (browseDown_scan fuel v m).
Proof.
  revert m. induction fuel as [|fuel IH]; intros m; simpl.
  - apply keeps_throw.
  - keeps_tac ltac:(first [apply IH | wf_leaf2]).
Qed.

Lemma wf_act (a : Action) : is_gesture a = true → keeps wf (act a).
Proof.
  destruct a; intros Hg; try discriminate; simpl.
  - apply keeps_bind; [apply wf_appendCodeView | intros; apply keeps_ret].
  - apply keeps_bind; [apply wf_appendTextView | intros; apply keeps_ret].
  - unfold trigger. apply keeps_bind; [apply wf_view_of|]. intros w.
    destruct (type w); apply wf_on_navigateUp.
  - unfold trigger. apply keeps_bind; [apply wf_view_of|]. intros w.
    destruct (type w); apply wf_on_navigateDown.
  - unfold trigger. apply keeps_bind; [apply wf_view_of|]. intros w.
    destruct (type w); apply wf_on_moveUp.
  - unfold trigger. apply keeps_bind; [apply wf_view_of|]. intros w.
    destruct (type w); apply wf_on_moveDown.
  - apply wf_clone.
  - apply wf_view_remove.
  - unfold trigger. apply keeps_bind; [apply wf_view_of|]. intros w.
    destruct (type w); apply wf_on_switch.
  - unfold trigger. apply keeps_bind; [apply wf_view_of|]. intros w.
    destruct (type w); [apply keeps_ret | apply wf_on_code].
  - apply keeps_bind.
    { unfold view_execute. keeps_tac wf_leaf2. }
    intros _. apply keeps_bind; [apply wf_emit|]. intros _.
    unfold trigger. apply keeps_bind; [apply wf_view_of|]. intros w.
    destruct (type w); [apply wf_on_execute | apply keeps_ret].
  - unfold trigger. apply keeps_bind; [apply wf_view_of|]. intros w.
    destruct (type w); [apply wf_on_text | apply keeps_ret].
  - unfold trigger. apply keeps_bind; [apply wf_view_of|]. intros w.
    destruct (type w); [|apply keeps_ret].
    unfold on_browseUp. apply keeps_bind; [apply keeps_gets | intros ?].
    apply wf_browseUp_scan.
  - unfold trigger. apply keeps_bind; [apply wf_view_of|]. intros w.
    destruct (type w); [|apply keeps_ret].
    unfold on_browseDown. apply keeps_bind; [apply keeps_gets | intros ?].
    apply wf_browseDown_scan.
  - apply wf_model_set.
  - apply wf_collection_sort.
  - apply wf_save.
  - apply wf_save.
Qed.

(** Whatever users do to the cells of a well-formed notebook, and whether
    a handler returns or throws, the notebook stays well formed: the
    registry holds every cell once, in the order of the presentation, and
    only cells that were constructed. *)
Theorem registry_follows_presentation (e : Env) (actions : list Action) :
  well_formed (this e) →
  forallb is_gesture actions = true →
  well_formed (this (run actions e)) ∧
  collection (this (run actions e)) = childNodes (this (run actions e)).
Proof.
  intros Hwf Hg.
  assert (H : wf (run actions e)).
  { revert e Hwf. induction actions as [|a actions IH]; intros e Hwf; [done|].
    simpl in Hg. apply andb_prop in Hg as [Ha Hg]. simpl.
    apply IH; [done|]. apply keeps_env_of; [by apply wf_act | done]. }
  split; [done|]. by destruct H as (_ & -> & _).
Qed.

Lemma registry_follows_presentation_witness :
  well_formed
    (this (run [Switch 1; MoveUp 3; Remove 0; Clone 2; Code 4 "x"] env_abcd)) ∧
  collection
    (this (run [Switch 1; MoveUp 3; Remove 0; Clone 2; Code 4 "x"] env_abcd))
  = childNodes
    (this (run [Switch 1; MoveUp 3; Remove 0; Clone 2; Code 4 "x"] env_abcd)).
Proof.
  apply (registry_follows_presentation env_abcd
           [Switch 1; MoveUp 3; Remove 0; Clone 2; Code 4 "x"]).
  - apply (bool_decide_unpack _). vm_compute. exact I.
  - reflexivity.
Defined.

(** ** A run follows the registry as it is *)

(** The walk of a run asks the registry for the next cell when an execution
    completes, not before: while the last cell is executing, the run that
    would finish at its completion goes on instead to a code cell that was
    appended in the meantime, and executes it. *)
Theorem run_reaches_cell_appended_meanwhile (e : Env) (v : cid)
    (pre : list cid) (s s' : string) (o : Outcome) :
  well_formed (this e) →
  collection (this e) = pre ++ [v] →
  cells (this e) !! v = Some (code, s) →
  execution (this e) = true →
  ∃ e_done e1 e2,
    sandbox_return true v o e = Ok Finished e_done ∧
    effects (this e_done) = effects (this e) ++ [SandboxReturn v o; Completion] ∧
    appendCodeView None (Some s') e = Ok (length (views (this e))) e1 ∧
    sandbox_return true v o e1 = Ok (Awaiting (length (views (this e)))) e2 ∧
    effects (this e2) =
      effects (this e) ++
      [SandboxReturn v o; Focus (length (views (this e)));
       SandboxExecute (length (views (this e))) s'] ∧
    execution (this e2) = true.
Proof.
  intros Hwf Hc Hv Hx.
  destruct (sandbox_return_spec true e v o pre [] s Hwf Hc Hv Hx)
    as (e_done & Hd1 & Hd2 & _ & _).
  simpl in Hd1, Hd2.
  pose proof (appendCodeView_at_end e (Some s') Hwf) as Happ. simpl in Happ.
  match type of Happ with _ = Ok _ ?E => set (e1 := E) in * end.
  assert (Hwf1 : well_formed (this e1)) by (by apply well_formed_appended).
  assert (Hvlt : v < length (views (this e))).
  { apply lookup_lt_Some in Hv. unfold cells in Hv.
    by rewrite length_fmap in Hv. }
  assert (Hv1 : cells (this e1) !! v = Some (code, s)).
  { unfold cells in *. simpl. rewrite fmap_app, lookup_app_l; [done|].
    by rewrite length_fmap. }
  assert (Hn1 : cells (this e1) !! length (views (this e)) = Some (code, s')).
  { unfold cells. simpl. rewrite fmap_app, lookup_app_r;
      rewrite length_fmap; [|lia]. by rewrite Nat.sub_diag. }
  destruct (sandbox_return_spec true e1 v o pre [length (views (this e))] s)
    as (e2 & H1 & H2 & _ & H4); [done | | done | done |].
  { simpl. by rewrite Hc, <- app_assoc. }
  assert (Hvis : visit (cells (this e1)) true [length (views (this e))]
                 = ([Focus (length (views (this e)));
                     SandboxExecute (length (views (this e))) s'],
                    Awaiting (length (views (this e)))))
    by (unfold visit; by rewrite Hn1).
  rewrite Hvis in H1, H2, H4.
  exists e_done, e1, e2. done.
Qed.

Lemma run_reaches_cell_appended_meanwhile_witness :
  let e := set_this (set_execution true (this env_abcd)) env_abcd in
  ∃ e_done e1 e2,
    sandbox_return true 3 (Success "ok") e = Ok Finished e_done ∧
    effects (this e_done)
      = effects (this e) ++ [SandboxReturn 3 (Success "ok"); Completion] ∧
    appendCodeView None (Some "late"%string) e
      = Ok (length (views (this e))) e1 ∧
    sandbox_return true 3 (Success "ok") e1
      = Ok (Awaiting (length (views (this e)))) e2 ∧
    effects (this e2) =
      effects (this e) ++
      [SandboxReturn 3 (Success "ok"); Focus (length (views (this e)));
       SandboxExecute (length (views (this e))) "late"] ∧
    execution (this e2) = true.
Proof.
  apply (run_reaches_cell_appended_meanwhile
           (set_this (set_execution true (this env_abcd)) env_abcd)
           3 [0; 1; 2] "d" "late" (Success "ok")).
  - apply (bool_decide_unpack _). vm_compute. exact I.
  - reflexivity.
  - reflexivity.
  - reflexivity.
Defined.

(** ** The [code] event with a payload *)

(** The [code] event of a text cell with a payload that is not empty
    constructs a code cell with the payload right after the text cell,
    wherever the text cell stands, gives it the next id and the focus, the
    cursor at its start or on its one end; the text cell is removed when it
    is empty and stays when it has content. *)
Theorem code_event_with_payload (e : Env) (v : cid) (w : View)
    (payload : string) (pre post : list cid) :
  well_formed (this e) →
  collection (this e) = pre ++ v :: post →
  views (this e) !! v = Some w →
  type w = text →
  nonempty payload = true →
  ∃ e' wn,
    trigger v (Ev.code payload) e = Ok tt e' ∧
    views (this e') !! length (views (this e)) = Some wn ∧
    type wn = code ∧ value wn = payload ∧
    _uniqueCellId wn = Some (_uniqueId (this e)) ∧
    (nonempty (value w) = true → cursor wn = AtStart) ∧
    last (focuses (effects (this e'))) = Some (length (views (this e))) ∧
    collection (this e') =
      (if nonempty (value w)
       then pre ++ v :: length (views (this e)) :: post
       else pre ++ length (views (this e)) :: post) ∧
    childNodes (this e') = collection (this e').
Proof.
  intros Hwf Hc Hw Ht Hp.
  assert (Hlen : v < length (views (this e))) by (by apply lookup_lt_Some in Hw).
  rewrite (trigger_code e v w) by done. unfold on_code.
  assert (H1 : ∀ k : list cid → M unit,
            (let* nodes := gets childNodes in k nodes) e
            = k (childNodes (this e)) e) by done.
  rewrite H1, Hp. simpl orb. cbv iota.
  pose proof (appendCodeView_after e v (Some payload) pre post Hwf Hc) as HC.
  simpl in HC.
  erewrite bind_Ok; [|erewrite bind_Ok by exact HC; reflexivity].
  match goal with |- context [bind (getNextView v) _ ?e1] => set (E1 := e1) end.
  assert (Hwf1 : well_formed (this E1))
    by (by apply (well_formed_inserted (this e))).
  pose proof Hwf as (Hnd & _ & _). rewrite Hc in Hnd.
  destruct (NoDup_middle _ _ _ Hnd) as [Hpre _].
  rewrite bind_getNextView.
  change (collection (this E1))
    with (pre ++ v :: length (views (this e)) :: post).
  rewrite getNext_middle by done. simpl head.
  set (E2 := set_this
               (set_effects (effects (this E1) ++
                               [Focus (length (views (this e)))])
                  (set_views (alter (set_cursor AtStart)
                                (length (views (this e))) (views (this E1)))
                     (this E1))) E1).
  assert (Hstep : ∀ k : M unit,
            (let* n := deref (Some (length (views (this e)))) in
             moveCursorToEnd n true >> focus n >> k) E1 = k E2) by done.
  rewrite Hstep.
  assert (Hfoc : ∀ (t : list Effect) (c : cid),
            last (focuses (t ++ [Focus c])) = Some c).
  { intros t c. unfold focuses. rewrite omap_app. simpl. apply last_snoc. }
  assert (Hval : getValue v E2 = Ok (value w) E2).
  { unfold getValue. rewrite (bind_view_of _ _ w); [done|].
    simpl. rewrite alter_snoc. by rewrite lookup_app_l. }
  erewrite bind_Ok by exact Hval.
  destruct (nonempty (value w)) eqn:Hne.
  - eexists _, _. split_and!.
    1: reflexivity.
    1: simpl; rewrite alter_snoc; apply lookup_snoc.
    all: try done.
    simpl. apply Hfoc.
  - assert (Hwf2 : well_formed (this E2)).
    { destruct Hwf1 as (? & ? & ?). unfold well_formed. simpl.
      by rewrite length_alter. }
    pose proof (view_remove_spec E2 v pre (length (views (this e)) :: post)
                  Hwf2 eq_refl) as Hrm.
    simpl in Hrm. rewrite Hrm by (by destruct pre).
    eexists _, _. split_and!.
    1: reflexivity.
    1: simpl; rewrite !alter_snoc; apply lookup_snoc.
    all: try done.
    simpl. apply Hfoc.
Qed.

Lemma code_event_with_payload_witness :
  ∃ e' wn,
    trigger 1 (Ev.code "f()") env_abcd = Ok tt e' ∧
    views (this e') !! length (views (this env_abcd)) = Some wn ∧
    type wn = code ∧ value wn = "f()"%string ∧
    _uniqueCellId wn = Some (_uniqueId (this env_abcd)) ∧
    (nonempty (value (mkView text "b" None AtEnd)) = true →
     cursor wn = AtStart) ∧
    last (focuses (effects (this e')))
      = Some (length (views (this env_abcd))) ∧
    collection (this e') =
      (if nonempty (value (mkView text "b" None AtEnd))
       then [0] ++ 1 :: length (views (this env_abcd)) :: [2; 3]
       else [0] ++ length (views (this env_abcd)) :: [2; 3]) ∧
    childNodes (this e') = collection (this e').
Proof.
  apply (code_event_with_payload env_abcd 1 (mkView text "b" None AtEnd)
           "f()" [0] [2; 3]).
  - apply (bool_decide_unpack _). vm_compute. exact I.
  - reflexivity.
  - reflexivity.
  - reflexivity.
  - reflexivity.
Defined.
